(** * Creators search index: [onIndexSetup] and [onIndexUpdate]

    A shallow embedding of the creators search-index processor
    (the module that declares [READ_BATCH_SIZE], [INDEX_ID], [SWAP_INDEX_ID],
    [onIndexSetup] and [onIndexUpdate]) and the properties of its
    specification that concern it.

    The index engine is an external service: it is modelled as a client
    whose answers are a function of the engine operations performed so far.
    The source store is a snapshot that does not change during a run. Every
    store read and every engine operation is appended to a chronological
    log, so that ordering properties can be stated on the log of a run.
    [console.log] calls are not modelled. *)

From Stdlib Require Import ZArith String Bool Arith Lia List.
Import ListNotations.

(** ** Constants *)

Definition READ_BATCH_SIZE : nat := 1000.
Definition INDEX_ID : string := "creators"%string.
Definition SWAP_INDEX_ID : string := (INDEX_ID ++ "_NEW")%string.

(** ** Data model *)

(** A JS object whose values are integers: field name, value, in insertion
    order. The empty object is [[]]; spreading an object into a fresh
    literal copies its fields. *)
Definition JsObject := list (string * Z).

Inductive MetricTimeframe := Day | Week | Month | Year | AllTime.

Definition isAllTime (t : MetricTimeframe) : bool :=
  match t with AllTime => true | _ => false end.

(** One row of the per-timeframe user metrics relation (the fields the
    query reads). *)
Record UserMetric := {
  timeframe : MetricTimeframe;
  followerCount : Z;
  uploadCount : Z;
  followingCount : Z;
  reviewCount : Z;
  answerAcceptCount : Z;
  hiddenCount : Z
}.

Record UserRank := {
  ratingAllTimeRank : Z;
  ratingCountAllTimeRank : Z;
  followerCountAllTimeRank : Z;
  favoriteCountAllTimeRank : Z;
  answerAcceptCountAllTimeRank : Z;
  answerCountAllTimeRank : Z;
  downloadCountAllTimeRank : Z
}.

(** A row of the user table. Timestamps are milliseconds. [metrics] is the
    one-to-many relation: the query returns it as an array, [Some ms], for
    every row. [None] stands for a [metrics] that is [null] or [undefined]
    at run time, which the ORM's typing excludes; other values that are
    not arrays are not represented. The fields
    of [userWithCosmeticsSelect], which is declared elsewhere, are
    represented by [id] and [username]. *)
Record User := {
  id : Z;
  username : string;
  createdAt : Z;
  deletedAt : option Z;
  rank : option UserRank;
  metrics : option (list UserMetric)
}.

(** A row of [searchIndexUpdateQueue]. Several rows may name the same id. *)
Record QueueItem := {
  q_type : string;
  q_id : Z
}.

Record Db := {
  user : list User;
  searchIndexUpdateQueue : list QueueItem
}.

(** [SearchIndexRunContext]; [lastUpdatedAt] is [None] when not provided. *)
Record SearchIndexRunContext := {
  db : Db;
  lastUpdatedAt : option Z;
  indexName : string
}.

(** What [db.user.findMany] returns for one row under the query's [select]. *)
Record UserRecord := {
  rec_id : Z;
  rec_username : string;
  rec_rank : option JsObject;
  rec_metrics : option (list JsObject)
}.

(** An index-ready record: the user record with [metrics] flattened. *)
Record Doc := {
  doc_id : Z;
  doc_username : string;
  doc_rank : option JsObject;
  doc_metrics : JsObject
}.

(** ** The index engine *)

Definition Exn := string.

Record Index := { uid : string }.
Record EnqueuedTask := { taskUid : Z }.

(** Everything a run does to the outside world, with what it got back
    ([inl e]: the call threw [e]). *)
Inductive Event :=
| EGetOrCreateIndex (name : string) (r : Exn + option Index)
| EUpdateSearchableAttributes (index : string) (attrs : list string)
                              (r : Exn + EnqueuedTask)
| EUpdateSortableAttributes (index : string) (attrs : list string)
                            (r : Exn + EnqueuedTask)
| EUpdateDocuments (index : string) (docs : list Doc) (r : Exn + EnqueuedTask)
| EWaitForTasks (uids : list Z) (r : Exn + unit)
| EQueueFindMany (type : string) (ids : list Z)
| EUserFindMany (skip take : nat) (rows : list UserRecord)
| EQueueDeleteMany (type : string) (ids : list Z).

Definition Log := list Event.

Definition isEngineEvent (e : Event) : bool :=
  match e with
  | EQueueFindMany _ _ | EUserFindMany _ _ _ | EQueueDeleteMany _ _ => false
  | _ => true
  end.

(** The engine operations of a log: all the engine can have seen. *)
Definition engineView (l : Log) : Log := filter isEngineEvent l.

(** A configured client. Each answer depends on the engine operations so
    far and on the call. [getOrCreateIndex] is the helper of the
    meilisearch utilities, which is declared elsewhere: it answers an
    index, nothing ([None]), or throws. [updateDocuments h name docs] is
    [client.index(name).updateDocuments(docs)]. *)
Record Client := {
  getOrCreateIndex : Log -> string -> Exn + option Index;
  updateSearchableAttributes : Log -> Index -> list string -> Exn + EnqueuedTask;
  updateSortableAttributes : Log -> Index -> list string -> Exn + EnqueuedTask;
  updateDocuments : Log -> string -> list Doc -> Exn + EnqueuedTask;
  waitForTasks : Log -> list Z -> Exn + unit
}.

(** ** Computations: a log, exceptions, and fuel for the read loop *)

Inductive Outcome (A : Type) :=
| Returned (a : A)
| Thrown (e : Exn)
| OutOfFuel.

Arguments Returned {A} a.
Arguments Thrown {A} e.
Arguments OutOfFuel {A}.

Definition M (A : Type) := Log -> Outcome A * Log.

Definition ret {A} (a : A) : M A := fun l => (Returned a, l).

Definition bind {A B} (m : M A) (k : A -> M B) : M B :=
  fun l =>
    match m l with
    | (Returned a, l') => k a l'
    | (Thrown e, l') => (Thrown e, l')
    | (OutOfFuel, l') => (OutOfFuel, l')
    end.

Notation "x <- m ;; k" := (bind m (fun x => k))
  (at level 61, m at next level, right associativity).
Notation "m ;;; k" := (bind m (fun _ => k))
  (at level 61, right associativity).

Definition outOfFuel {A} : M A := fun l => (OutOfFuel, l).

Definition settle {A} (r : Exn + A) : Outcome A :=
  match r with inl e => Thrown e | inr a => Returned a end.

(** A call to the outside world: compute the answer, log it. *)
Definition call {A} (answer : Log -> Exn + A) (ev : Exn + A -> Event) : M A :=
  fun l => let r := answer l in (settle r, l ++ [ev r]).

(** A value computed locally that may throw. *)
Definition eval {A} (r : Exn + A) : M A := fun l => (settle r, l).

Definition await_getOrCreateIndex (c : Client) (name : string) : M (option Index) :=
  call (fun l => getOrCreateIndex c (engineView l) name) (EGetOrCreateIndex name).

Definition await_updateSearchableAttributes (c : Client) (index : Index)
    (attrs : list string) : M EnqueuedTask :=
  call (fun l => updateSearchableAttributes c (engineView l) index attrs)
       (EUpdateSearchableAttributes (uid index) attrs).

Definition await_updateSortableAttributes (c : Client) (index : Index)
    (attrs : list string) : M EnqueuedTask :=
  call (fun l => updateSortableAttributes c (engineView l) index attrs)
       (EUpdateSortableAttributes (uid index) attrs).

Definition await_updateDocuments (c : Client) (name : string) (docs : list Doc)
    : M EnqueuedTask :=
  call (fun l => updateDocuments c (engineView l) name docs)
       (EUpdateDocuments name docs).

Definition await_waitForTasks (c : Client) (uids : list Z) : M unit :=
  call (fun l => waitForTasks c (engineView l) uids) (EWaitForTasks uids).

(** ** The source store's queries *)

(** [db.searchIndexUpdateQueue.findMany({ select: { id }, where: { type } })];
    each [{ id }] object of the answer is represented by its id. *)
Definition queueFindMany (d : Db) (type : string) : list Z :=
  map q_id (filter (fun e => String.eqb (q_type e) type) (searchIndexUpdateQueue d)).

(** The [where] of the user query: [deletedAt: null] and, when
    [lastUpdatedAt] is provided, [createdAt > lastUpdatedAt] or [id in ids];
    [OR: undefined] puts no condition. *)
Definition userWhere (lastUpdatedAt : option Z) (ids : list Z) (u : User) : bool :=
  match deletedAt u with
  | None =>
      match lastUpdatedAt with
      | None => true
      | Some t => (t <? createdAt u)%Z || existsb (Z.eqb (id u)) ids
      end
  | Some _ => false
  end.

Definition selectRank (r : UserRank) : JsObject :=
  [ ("ratingAllTimeRank", ratingAllTimeRank r);
    ("ratingCountAllTimeRank", ratingCountAllTimeRank r);
    ("followerCountAllTimeRank", followerCountAllTimeRank r);
    ("favoriteCountAllTimeRank", favoriteCountAllTimeRank r);
    ("answerAcceptCountAllTimeRank", answerAcceptCountAllTimeRank r);
    ("answerCountAllTimeRank", answerCountAllTimeRank r);
    ("downloadCountAllTimeRank", downloadCountAllTimeRank r) ]%string.

Definition selectMetric (m : UserMetric) : JsObject :=
  [ ("followerCount", followerCount m);
    ("uploadCount", uploadCount m);
    ("followingCount", followingCount m);
    ("reviewCount", reviewCount m);
    ("answerAcceptCount", answerAcceptCount m);
    ("hiddenCount", hiddenCount m) ]%string.

(** The nested [metrics] selection: the records whose timeframe is
    [AllTime], each reduced to the six selected fields. *)
Definition selectMetrics (ms : list UserMetric) : list JsObject :=
  map selectMetric (filter (fun m => isAllTime (timeframe m)) ms).

Definition selectUser (u : User) : UserRecord :=
  {| rec_id := id u;
     rec_username := username u;
     rec_rank := option_map selectRank (rank u);
     rec_metrics := option_map selectMetrics (metrics u) |}.

(** The rows the user query matches, in the store's order. *)
Definition matching (d : Db) (lastUpdatedAt : option Z) (ids : list Z) : list User :=
  filter (userWhere lastUpdatedAt ids) (user d).

(** [db.user.findMany({ skip, take, select, where })]. *)
Definition userFindMany (d : Db) (skip take : nat) (lastUpdatedAt : option Z)
    (ids : list Z) : list UserRecord :=
  map selectUser (firstn take (skipn skip (matching d lastUpdatedAt ids))).

Definition await_queueFindMany (d : Db) (type : string) : M (list Z) :=
  fun l => let ids := queueFindMany d type in
           (Returned ids, l ++ [EQueueFindMany type ids]).

Definition await_userFindMany (d : Db) (skip take : nat)
    (lastUpdatedAt : option Z) (ids : list Z) : M (list UserRecord) :=
  fun l => let rows := userFindMany d skip take lastUpdatedAt ids in
           (Returned rows, l ++ [EUserFindMany skip take rows]).

(** ** The transformer *)

(** The callback of [users.map]:
    [{ ...userRecord, metrics: { ...(userRecord.metrics[0] || {}) } }].
    Indexing [metrics] throws a [TypeError] when it is [null] or
    [undefined] ([None]); on an array, [metrics[0]] is its first element,
    or [undefined] when it is empty, and then [{}] is spread. *)
Definition indexReadyRecord (userRecord : UserRecord) : Exn + Doc :=
  match rec_metrics userRecord with
  | None => inl "TypeError"%string
  | Some ms =>
      inr {| doc_id := rec_id userRecord;
             doc_username := rec_username userRecord;
             doc_rank := rec_rank userRecord;
             doc_metrics := match ms with m :: _ => m | [] => [] end |}
  end.

(** [users.map(...)]: left to right, the first exception escapes. *)
Fixpoint indexReadyRecords (users : list UserRecord) : Exn + list Doc :=
  match users with
  | [] => inr []
  | u :: rest =>
      match indexReadyRecord u with
      | inl e => inl e
      | inr d =>
          match indexReadyRecords rest with
          | inl e => inl e
          | inr ds => inr (d :: ds)
          end
      end
  end.

(** ** The processor *)

Definition searchableAttributes : list string := ["username"]%string.

Definition sortableAttributes : list string :=
  [ "creation_date";
    "rank.ratingAllTimeRank";
    "rank.ratingCountAllTimeRank";
    "rank.followerCountAllTimeRank";
    "rank.favoriteCountAllTimeRank";
    "rank.answerAcceptCountAllTimeRank";
    "rank.answerCountAllTimeRank";
    "rank.downloadCountAllTimeRank";
    "metrics.followerCount";
    "metrics.uploadCount";
    "metrics.followingCount";
    "metrics.reviewCount";
    "metrics.answerAcceptCount";
    "metrics.hiddenCount" ]%string.

(** [client] is [None] when no index engine is configured. *)
Definition onIndexSetup (client : option Client) (indexName : string) : M unit :=
  match client with
  | None => ret tt
  | Some c =>
      index <- await_getOrCreateIndex c indexName ;;
      match index with
      | None => ret tt
      | Some index =>
          updateSearchableAttributesTask <-
            await_updateSearchableAttributes c index searchableAttributes ;;
          sortableFieldsAttributesTask <-
            await_updateSortableAttributes c index sortableAttributes ;;
          await_waitForTasks c [ taskUid updateSearchableAttributesTask;
                                 taskUid sortableFieldsAttributesTask ]
      end
  end.

(** The [while (true)] loop of [onIndexUpdate]; [fuel] bounds the number
    of iterations. *)
Fixpoint readLoop (fuel : nat) (c : Client) (d : Db) (lastUpdatedAt : option Z)
    (queuedItems : list Z) (offset : nat) (tagTasks : list EnqueuedTask)
    : M (list EnqueuedTask) :=
  match fuel with
  | O => outOfFuel
  | S fuel' =>
      users <- await_userFindMany d offset READ_BATCH_SIZE lastUpdatedAt queuedItems ;;
      if Nat.eqb (length users) 0 then ret tagTasks
      else
        indexReadyRecords <- eval (indexReadyRecords users) ;;
        task <- await_updateDocuments c INDEX_ID indexReadyRecords ;;
        readLoop fuel' c d lastUpdatedAt queuedItems
                 (offset + length users) (tagTasks ++ [task])
  end.

Definition onIndexUpdate (fuel : nat) (client : option Client)
    (ctx : SearchIndexRunContext) : M unit :=
  match client with
  | None => ret tt
  | Some c =>
      onIndexSetup client (indexName ctx) ;;;
      queuedItems <- await_queueFindMany (db ctx) INDEX_ID ;;
      tagTasks <- readLoop fuel c (db ctx) (lastUpdatedAt ctx) queuedItems 0 [] ;;
      await_waitForTasks c (map taskUid tagTasks)
  end.

(** Fuel that is always enough: one iteration per row and one more. *)
Definition enoughFuel (ctx : SearchIndexRunContext) : nat :=
  S (length (user (db ctx))).

(** A whole run, from an empty log. *)
Definition run (client : option Client) (ctx : SearchIndexRunContext)
    : Outcome unit * Log :=
  onIndexUpdate (enoughFuel ctx) client ctx [].

(** ** A concrete engine and concrete stores, for evaluation *)

(** An engine that accepts everything; the task of a call is numbered by
    the count of operations before it. *)
Definition acceptingClient : Client :=
  {| getOrCreateIndex := fun _ name => inr (Some {| uid := name |});
     updateSearchableAttributes :=
       fun h _ _ => inr {| taskUid := Z.of_nat (length h) |};
     updateSortableAttributes :=
       fun h _ _ => inr {| taskUid := Z.of_nat (length h) |};
     updateDocuments :=
       fun h _ _ => inr {| taskUid := Z.of_nat (length h) |};
     waitForTasks := fun _ _ => inr tt |}.

Definition allTimeMetric (n : Z) : UserMetric :=
  {| timeframe := AllTime; followerCount := n; uploadCount := 0;
     followingCount := 0; reviewCount := 0; answerAcceptCount := 0;
     hiddenCount := 0 |}.

Definition dayMetric (n : Z) : UserMetric :=
  {| timeframe := Day; followerCount := n; uploadCount := 0;
     followingCount := 0; reviewCount := 0; answerAcceptCount := 0;
     hiddenCount := 0 |}.

(** A live user created at [t]. *)
Definition liveUser (i t : Z) (ms : list UserMetric) : User :=
  {| id := i; username := "u"%string; createdAt := t; deletedAt := None;
     rank := None; metrics := Some ms |}.

(** A soft-deleted user. *)
Definition deletedUser (i t : Z) : User :=
  {| id := i; username := "u"%string; createdAt := t; deletedAt := Some t;
     rank := None; metrics := Some [] |}.

Definition context (us : list User) (q : list QueueItem) (w : option Z)
    (name : string) : SearchIndexRunContext :=
  {| db := {| user := us; searchIndexUpdateQueue := q |};
     lastUpdatedAt := w; indexName := name |}.

(** The rows behind the page read at [offset]. *)
Definition pageRows (d : Db) (w : option Z) (ids : list Z) (offset : nat)
    : list User :=
  firstn READ_BATCH_SIZE (skipn offset (matching d w ids)).

(** ** Reading a log *)

(** The pages [db.user.findMany] returned, in order. *)
Definition userPages (l : Log) : list (list UserRecord) :=
  flat_map (fun e => match e with EUserFindMany _ _ rows => [rows] | _ => [] end) l.

(** The read set of a run: every record some page returned. *)
Definition readSet (l : Log) : list UserRecord := concat (userPages l).

(** The upsert batches handed to [updateDocuments], with their target. *)
Definition upserts (l : Log) : list (string * list Doc) :=
  flat_map (fun e => match e with
                     | EUpdateDocuments name docs _ => [(name, docs)]
                     | _ => []
                     end) l.

Definition batches (l : Log) : list (list Doc) := map snd (upserts l).

(** The tasks the engine enqueued for upsert batches. *)
Definition upsertTasks (l : Log) : list EnqueuedTask :=
  flat_map (fun e => match e with
                     | EUpdateDocuments _ _ (inr t) => [t]
                     | _ => []
                     end) l.


Definition queueDeletes (l : Log) : list (string * list Z) :=
  flat_map (fun e => match e with EQueueDeleteMany t ids => [(t, ids)] | _ => [] end) l.

(** The batches the engine accepted, each with its task. *)
Definition acceptedBatches (l : Log) : list (list Doc * EnqueuedTask) :=
  flat_map (fun e => match e with
                     | EUpdateDocuments _ docs (inr t) => [(docs, t)]
                     | _ => []
                     end) l.

Definition isLoopEvent (e : Event) : bool :=
  match e with
  | EUserFindMany _ _ _ | EUpdateDocuments _ _ _ => true
  | _ => false
  end.

(** No loop activity follows the first page for which [short] holds. *)
Fixpoint stopsAt (short : nat -> list UserRecord -> bool) (l : Log) : bool :=
  match l with
  | [] => true
  | EUserFindMany _ take rows :: rest =>
      if short take rows
      then forallb (fun e => negb (isLoopEvent e)) rest
      else stopsAt short rest
  | _ :: rest => stopsAt short rest
  end.

(** The page has fewer rows than requested (zero rows included). *)
Definition shortPage (take : nat) (rows : list UserRecord) : bool :=
  length rows <? take.

Definition emptyPage (take : nat) (rows : list UserRecord) : bool :=
  length rows =? 0.

(** ** The iterations of the read loop, as a relation

    [LoopTrace c d w ids h offset tagTasks evs out]: from a log whose
    engine operations are [h], with the loop variables [offset] and
    [tagTasks], the loop appends [evs] and ends with [out]. *)
Inductive LoopTrace (c : Client) (d : Db) (w : option Z) (ids : list Z)
  : Log -> nat -> list EnqueuedTask -> Log -> Outcome (list EnqueuedTask) -> Prop :=
| LoopBreak h offset tagTasks :
    userFindMany d offset READ_BATCH_SIZE w ids = [] ->
    LoopTrace c d w ids h offset tagTasks
      [EUserFindMany offset READ_BATCH_SIZE []] (Returned tagTasks)
| LoopTransformThrows h offset tagTasks users e :
    userFindMany d offset READ_BATCH_SIZE w ids = users ->
    users <> [] ->
    indexReadyRecords users = inl e ->
    LoopTrace c d w ids h offset tagTasks
      [EUserFindMany offset READ_BATCH_SIZE users] (Thrown e)
| LoopUpdateThrows h offset tagTasks users docs e :
    userFindMany d offset READ_BATCH_SIZE w ids = users ->
    users <> [] ->
    indexReadyRecords users = inr docs ->
    updateDocuments c h INDEX_ID docs = inl e ->
    LoopTrace c d w ids h offset tagTasks
      [EUserFindMany offset READ_BATCH_SIZE users;
       EUpdateDocuments INDEX_ID docs (inl e)] (Thrown e)
| LoopNext h offset tagTasks users docs task evs out :
    userFindMany d offset READ_BATCH_SIZE w ids = users ->
    users <> [] ->
    indexReadyRecords users = inr docs ->
    updateDocuments c h INDEX_ID docs = inr task ->
    LoopTrace c d w ids (h ++ [EUpdateDocuments INDEX_ID docs (inr task)])
      (offset + length users) (tagTasks ++ [task]) evs out ->
    LoopTrace c d w ids h offset tagTasks
      (EUserFindMany offset READ_BATCH_SIZE users
       :: EUpdateDocuments INDEX_ID docs (inr task) :: evs) out
| LoopOutOfFuel h offset tagTasks :
    LoopTrace c d w ids h offset tagTasks [] OutOfFuel.

(** ** The shape of a whole run *)

Definition isSetupEvent (e : Event) : bool :=
  match e with
  | EGetOrCreateIndex _ _ | EUpdateSearchableAttributes _ _ _
  | EUpdateSortableAttributes _ _ _ | EWaitForTasks _ _ => true
  | _ => false
  end.

Definition loopFailure (A : Type) (out : Outcome (list EnqueuedTask)) : option (Outcome A) :=
  match out with
  | Returned _ => None
  | Thrown e => Some (Thrown e)
  | OutOfFuel => Some OutOfFuel
  end.

(** [RunShape c ctx out l]: a run of [onIndexUpdate] with client [c] from
    an empty log may end with [out] and log [l]: the setup throws; or the
    loop does not return; or the loop returns and its tasks are joined. *)
Inductive RunShape (c : Client) (ctx : SearchIndexRunContext)
  : Outcome unit -> Log -> Prop :=
| RunSetupThrows sevs e :
    forallb isSetupEvent sevs = true ->
    RunShape c ctx (Thrown e) sevs
| RunLoopFails sevs levs lout out :
    forallb isSetupEvent sevs = true ->
    LoopTrace c (db ctx) (lastUpdatedAt ctx) (queueFindMany (db ctx) INDEX_ID)
      (engineView (sevs ++ [EQueueFindMany INDEX_ID (queueFindMany (db ctx) INDEX_ID)]))
      0 [] levs lout ->
    loopFailure unit lout = Some out ->
    RunShape c ctx out
      (sevs ++ EQueueFindMany INDEX_ID (queueFindMany (db ctx) INDEX_ID) :: levs)
| RunJoins sevs levs tasks r :
    forallb isSetupEvent sevs = true ->
    LoopTrace c (db ctx) (lastUpdatedAt ctx) (queueFindMany (db ctx) INDEX_ID)
      (engineView (sevs ++ [EQueueFindMany INDEX_ID (queueFindMany (db ctx) INDEX_ID)]))
      0 [] levs (Returned tasks) ->
    RunShape c ctx (settle r)
      (sevs ++ EQueueFindMany INDEX_ID (queueFindMany (db ctx) INDEX_ID)
            :: levs ++ [EWaitForTasks (map taskUid tasks) r]).

(** ** Statements of the specification, as written *)

(** The selection predicate as the specification words it: a row is in the
    read set exactly when the watermark is absent, or the row's time is
    after the watermark, or its id is queued. The only time the query
    compares is [createdAt]. *)
Definition readSetClaim (ctx : SearchIndexRunContext) (l : Log) (u : User) : Prop :=
  In (selectUser u) (readSet l) <->
  (lastUpdatedAt ctx = None \/
   (exists t, lastUpdatedAt ctx = Some t /\ (t < createdAt u)%Z) \/
   In (id u) (queueFindMany (db ctx) INDEX_ID)).


(** ** The orchestrator's incremental run *)


(** Modelled from the spec: [clear] of the change queue, which is declared
    outside these sources: deletes the entries of [kind] for [ids]. *)
Definition clear (ids : list Z) (kind : string) (q : list QueueItem)
    : list QueueItem :=
  filter (fun e => negb (String.eqb (q_type e) kind && existsb (Z.eqb (q_id e)) ids)) q.



(** ** Further readings of a log *)

(** The exception an operation threw, if it did. *)
Definition threw (e : Event) : option Exn :=
  match e with
  | EGetOrCreateIndex _ (inl x) => Some x
  | EUpdateSearchableAttributes _ _ (inl x) => Some x
  | EUpdateSortableAttributes _ _ (inl x) => Some x
  | EUpdateDocuments _ _ (inl x) => Some x
  | EWaitForTasks _ (inl x) => Some x
  | _ => None
  end.

(** No operation of the log threw. *)
Definition Clean (l : Log) : Prop := Forall (fun e => threw e = None) l.

(** Nothing threw, or only the last operation did and its exception is
    the outcome. *)
Definition FailFast {A} (out : Outcome A) (evs : Log) : Prop :=
  Clean evs \/
  exists pre ev x,
    evs = pre ++ [ev] /\ Clean pre /\ threw ev = Some x /\ out = Thrown x.

(** The operations of a setup that returned for index [name]: the helper
    gave no index and nothing else was done, or both attribute lists were
    sent to the index it gave and their two tasks were joined. *)
Definition SetupDone (name : string) (sevs : Log) : Prop :=
  sevs = [EGetOrCreateIndex name (inr None)] \/
  exists index t1 t2,
    sevs = [ EGetOrCreateIndex name (inr (Some index));
             EUpdateSearchableAttributes (uid index) searchableAttributes (inr t1);
             EUpdateSortableAttributes (uid index) sortableAttributes (inr t2);
             EWaitForTasks [taskUid t1; taskUid t2] (inr tt) ].

Definition isSchemaUpdate (e : Event) : bool :=
  match e with
  | EUpdateSearchableAttributes _ _ _ | EUpdateSortableAttributes _ _ _ => true
  | _ => false
  end.

(** Every page is requested with [READ_BATCH_SIZE] rows, the first at
    [offset] and each next one after the rows already returned. *)
Fixpoint pagedFrom (offset : nat) (l : Log) : bool :=
  match l with
  | [] => true
  | EUserFindMany skip take rows :: rest =>
      (skip =? offset) && (take =? READ_BATCH_SIZE)
      && pagedFrom (offset + length rows) rest
  | _ :: rest => pagedFrom offset rest
  end.

(** The watermark [w1] is not later than [w2]; an absent watermark is
    earlier than any. *)
Definition notLater (w1 w2 : option Z) : Prop :=
  match w1, w2 with
  | None, _ => True
  | Some a, Some b => (a <= b)%Z
  | Some _, None => False
  end.

(** How a run with client [c] unfolds, with the setup it started with. *)
Inductive RunAnatomy (c : Client) (ctx : SearchIndexRunContext)
  : Outcome unit -> Log -> Prop :=
| AnatomySetupThrows sevs e :
    onIndexSetup (Some c) (indexName ctx) [] = (Thrown e, sevs) ->
    RunAnatomy c ctx (Thrown e) sevs
| AnatomyLoopFails sevs levs lout out :
    onIndexSetup (Some c) (indexName ctx) [] = (Returned tt, sevs) ->
    LoopTrace c (db ctx) (lastUpdatedAt ctx) (queueFindMany (db ctx) INDEX_ID)
      (engineView (sevs ++ [EQueueFindMany INDEX_ID (queueFindMany (db ctx) INDEX_ID)]))
      0 [] levs lout ->
    loopFailure unit lout = Some out ->
    RunAnatomy c ctx out
      (sevs ++ EQueueFindMany INDEX_ID (queueFindMany (db ctx) INDEX_ID) :: levs)
| AnatomyJoins sevs levs tasks r :
    onIndexSetup (Some c) (indexName ctx) [] = (Returned tt, sevs) ->
    LoopTrace c (db ctx) (lastUpdatedAt ctx) (queueFindMany (db ctx) INDEX_ID)
      (engineView (sevs ++ [EQueueFindMany INDEX_ID (queueFindMany (db ctx) INDEX_ID)]))
      0 [] levs (Returned tasks) ->
    RunAnatomy c ctx (settle r)
      (sevs ++ EQueueFindMany INDEX_ID (queueFindMany (db ctx) INDEX_ID)
            :: levs ++ [EWaitForTasks (map taskUid tasks) r]).

(** An engine whose helper finds no index. *)
Definition noIndexClient : Client :=
  {| getOrCreateIndex := fun _ _ => inr None;
     updateSearchableAttributes := updateSearchableAttributes acceptingClient;
     updateSortableAttributes := updateSortableAttributes acceptingClient;
     updateDocuments := updateDocuments acceptingClient;
     waitForTasks := waitForTasks acceptingClient |}.

(** An engine that rejects every batch of documents. *)
Definition rejectingClient : Client :=
  {| getOrCreateIndex := getOrCreateIndex acceptingClient;
     updateSearchableAttributes := updateSearchableAttributes acceptingClient;
     updateSortableAttributes := updateSortableAttributes acceptingClient;
     updateDocuments := fun _ _ _ => inl "rejected"%string;
     waitForTasks := waitForTasks acceptingClient |}.

(** * Properties *)

(** ** Lists and logs *)

Lemma engineView_app (l1 l2 : Log) :
  engineView (l1 ++ l2) = engineView l1 ++ engineView l2.
Proof. apply filter_app. Qed.

Lemma skipn_length_firstn {A} (n : nat) (l : list A) :
  skipn (length (firstn n l)) l = skipn n l.
Proof.
  destruct (Nat.le_gt_cases n (length l)) as [Hle | Hgt].
  - now rewrite length_firstn, Nat.min_l.
  - rewrite length_firstn, Nat.min_r by lia.
    rewrite skipn_all. symmetry. apply skipn_all2. lia.
Qed.

Lemma firstn_nil_inv {A} (n : nat) (l : list A) :
  0 < n -> firstn n l = [] -> l = [].
Proof.
  destruct n; [lia |]. now destruct l.
Qed.

(** ** One iteration of the loop *)

Section Loop.

Variables (c : Client) (d : Db) (w : option Z) (ids : list Z).

Lemma readLoop_step (fuel offset : nat) (tagTasks : list EnqueuedTask) (l : Log) :
  readLoop (S fuel) c d w ids offset tagTasks l =
  let users := userFindMany d offset READ_BATCH_SIZE w ids in
  let l1 := l ++ [EUserFindMany offset READ_BATCH_SIZE users] in
  match users with
  | [] => (Returned tagTasks, l1)
  | _ :: _ =>
      match indexReadyRecords users with
      | inl e => (Thrown e, l1)
      | inr docs =>
          match updateDocuments c (engineView l1) INDEX_ID docs with
          | inl e => (Thrown e, l1 ++ [EUpdateDocuments INDEX_ID docs (inl e)])
          | inr task =>
              readLoop fuel c d w ids (offset + length users) (tagTasks ++ [task])
                       (l1 ++ [EUpdateDocuments INDEX_ID docs (inr task)])
          end
      end
  end.
Proof.
  cbn [readLoop]. unfold bind at 1, await_userFindMany.
  destruct (userFindMany d offset READ_BATCH_SIZE w ids) as [| u us] eqn:Hpage;
    cbn [length Nat.eqb]; [reflexivity |].
  unfold bind, eval, await_updateDocuments, call.
  destruct (indexReadyRecords (u :: us)) as [e | docs]; cbn [settle]; [reflexivity |].
  cbv zeta.
  destruct (updateDocuments c _ INDEX_ID docs) as [e | task]; reflexivity.
Qed.

(** Every run of the loop follows [LoopTrace]. *)
Lemma readLoop_trace (fuel : nat) :
  forall offset tagTasks l,
  exists evs out,
    readLoop fuel c d w ids offset tagTasks l = (out, l ++ evs) /\
    LoopTrace c d w ids (engineView l) offset tagTasks evs out.
Proof.
  induction fuel as [| fuel IH]; intros offset tagTasks l.
  - exists [], OutOfFuel. split.
    + cbn. unfold outOfFuel. now rewrite app_nil_r.
    + constructor.
  - rewrite readLoop_step. cbv zeta.
    assert (Hview : engineView (l ++ [EUserFindMany offset READ_BATCH_SIZE
                       (userFindMany d offset READ_BATCH_SIZE w ids)]) = engineView l).
    { rewrite engineView_app. cbn. apply app_nil_r. }
    rewrite Hview.
    destruct (userFindMany d offset READ_BATCH_SIZE w ids) as [| u us] eqn:Hpage.
    + eexists _, _. split; [reflexivity |]. now constructor.
    + destruct (indexReadyRecords (u :: us)) as [e | docs] eqn:Hdocs.
      * eexists _, _. split; [reflexivity |].
        eapply LoopTransformThrows; eauto. discriminate.
      * destruct (updateDocuments c (engineView l) INDEX_ID docs) as [e | task] eqn:Hup.
        -- eexists _, _. split.
           ++ rewrite <- app_assoc. reflexivity.
           ++ eapply LoopUpdateThrows; eauto. discriminate.
        -- destruct (IH (offset + length (u :: us)) (tagTasks ++ [task])
                        ((l ++ [EUserFindMany offset READ_BATCH_SIZE (u :: us)])
                           ++ [EUpdateDocuments INDEX_ID docs (inr task)]))
             as (evs & out & Hrun & Htrace).
           eexists _, out. split.
           ++ rewrite Hrun. rewrite <- !app_assoc. reflexivity.
           ++ eapply LoopNext; eauto; [discriminate |].
              rewrite !engineView_app in Htrace. cbn in Htrace.
              rewrite app_nil_r in Htrace. exact Htrace.
Qed.

End Loop.

(** ** The transformer on a batch *)

Lemma indexReadyRecords_app (a b : list UserRecord) (da db : list Doc) :
  indexReadyRecords a = inr da ->
  indexReadyRecords b = inr db ->
  indexReadyRecords (a ++ b) = inr (da ++ db).
Proof.
  revert da. induction a as [| u a IH]; intros da Ha Hb; cbn in *.
  - now inversion Ha.
  - destruct (indexReadyRecord u) as [e | x]; [discriminate |].
    destruct (indexReadyRecords a) as [e | xs]; [discriminate |].
    inversion Ha; subst. now rewrite (IH xs eq_refl Hb).
Qed.

Lemma indexReadyRecords_ids (rs : list UserRecord) :
  forall ds, indexReadyRecords rs = inr ds -> map doc_id ds = map rec_id rs.
Proof.
  induction rs as [| r rs IH]; intros ds H; cbn in H.
  - now inversion H.
  - unfold indexReadyRecord in H.
    destruct (rec_metrics r); [| discriminate].
    destruct (indexReadyRecords rs) as [e | xs]; [discriminate |].
    inversion H; subst. cbn. now rewrite (IH xs eq_refl).
Qed.

Lemma indexReadyRecords_typed (rs : list UserRecord) :
  forall ds, indexReadyRecords rs = inr ds ->
  forall r, In r rs -> rec_metrics r <> None.
Proof.
  induction rs as [| r0 rs IH]; intros ds H r Hin; [contradiction |].
  cbn in H. unfold indexReadyRecord in H.
  destruct (rec_metrics r0) eqn:Hm; [| discriminate].
  destruct (indexReadyRecords rs) as [e | xs]; [discriminate |].
  destruct Hin as [<- | Hin]; [congruence | eauto].
Qed.


(** ** Pages *)

Lemma READ_BATCH_SIZE_pos : 0 < READ_BATCH_SIZE.
Proof. unfold READ_BATCH_SIZE. lia. Qed.

Section Pages.

Variables (d : Db) (w : option Z) (ids : list Z).

Let sel := matching d w ids.

Lemma userFindMany_pageRows (offset : nat) :
  userFindMany d offset READ_BATCH_SIZE w ids = map selectUser (pageRows d w ids offset).
Proof. reflexivity. Qed.

Lemma page_split (offset : nat) :
  skipn offset sel =
  pageRows d w ids offset
    ++ skipn (offset + length (userFindMany d offset READ_BATCH_SIZE w ids)) sel.
Proof.
  rewrite userFindMany_pageRows, length_map. unfold pageRows. fold sel.
  rewrite Nat.add_comm, <- skipn_skipn, skipn_length_firstn.
  symmetry. apply firstn_skipn.
Qed.

Lemma page_empty (offset : nat) :
  userFindMany d offset READ_BATCH_SIZE w ids = [] -> skipn offset sel = [].
Proof.
  rewrite userFindMany_pageRows. intros H. apply map_eq_nil in H.
  exact (firstn_nil_inv _ _ READ_BATCH_SIZE_pos H).
Qed.

Lemma page_nonempty_lt (offset : nat) :
  userFindMany d offset READ_BATCH_SIZE w ids <> [] -> offset < length sel.
Proof.
  intros H. destruct (Nat.le_gt_cases (length sel) offset) as [Hle | Hlt]; [| exact Hlt].
  exfalso. apply H. rewrite userFindMany_pageRows. unfold pageRows. fold sel.
  now rewrite skipn_all2.
Qed.

Lemma page_length_le (offset : nat) :
  offset + length (userFindMany d offset READ_BATCH_SIZE w ids) <= max offset (length sel).
Proof.
  rewrite userFindMany_pageRows, length_map. unfold pageRows. fold sel.
  rewrite length_firstn, length_skipn. lia.
Qed.

End Pages.

(** ** What a loop trace contains *)

Section Traces.

Variables (c : Client) (d : Db) (w : option Z) (ids : list Z).

Let sel := matching d w ids.

Lemma trace_target h offset tagTasks evs out :
  LoopTrace c d w ids h offset tagTasks evs out ->
  Forall (fun b => fst b = INDEX_ID) (upserts evs).
Proof.
  induction 1; cbn; repeat constructor; auto.
Qed.

Lemma trace_tasks h offset tagTasks evs out :
  LoopTrace c d w ids h offset tagTasks evs out ->
  forall tasks, out = Returned tasks -> tasks = tagTasks ++ upsertTasks evs.
Proof.
  induction 1; intros tasks Hout; try discriminate.
  - inversion Hout; subst. cbn. now rewrite app_nil_r.
  - cbn. rewrite (IHLoopTrace _ Hout). now rewrite <- app_assoc.
Qed.


Lemma trace_readSet h offset tagTasks evs out :
  LoopTrace c d w ids h offset tagTasks evs out ->
  forall tasks, out = Returned tasks ->
  readSet evs = map selectUser (skipn offset sel).
Proof.
  induction 1; intros tasks Hout; try discriminate.
  - unfold readSet. cbn. subst sel. now rewrite (page_empty _ _ _ _ H).
  - change (users ++ readSet evs = map selectUser (skipn offset sel)).
    rewrite (IHLoopTrace _ Hout).
    subst sel. rewrite (page_split d w ids offset), map_app.
    rewrite <- userFindMany_pageRows. now rewrite H.
Qed.

(** The documents handed to the engine are those of a prefix of the rows
    from [offset] on, all of them when the loop returns. *)
Lemma trace_docs h offset tagTasks evs out :
  LoopTrace c d w ids h offset tagTasks evs out ->
  exists rows rest,
    skipn offset sel = rows ++ rest /\
    indexReadyRecords (map selectUser rows) = inr (concat (batches evs)) /\
    (forall tasks, out = Returned tasks -> rest = []).
Proof.
  induction 1.
  - exists [], []. subst sel. rewrite (page_empty _ _ _ _ H). auto.
  - exists [], (skipn offset sel). repeat split; [discriminate].
  - pose proof (page_split d w ids offset) as Hsplit. rewrite H in Hsplit.
    exists (pageRows d w ids offset), (skipn (offset + length users) sel).
    split; [exact Hsplit |]. split; [| discriminate].
    rewrite <- userFindMany_pageRows, H.
    change (indexReadyRecords users = inr (docs ++ [])).
    now rewrite app_nil_r.
  - destruct IHLoopTrace as (rows & rest & Hrows & Hdocs & Hret).
    pose proof (page_split d w ids offset) as Hsplit. rewrite H in Hsplit.
    exists (pageRows d w ids offset ++ rows), rest.
    split; [| split; [| exact Hret]].
    + fold sel in Hsplit. rewrite Hsplit, <- app_assoc. f_equal. exact Hrows.
    + change (indexReadyRecords (map selectUser (pageRows d w ids offset ++ rows))
              = inr (docs ++ concat (batches evs))).
      rewrite map_app. apply indexReadyRecords_app; [| exact Hdocs].
      now rewrite <- userFindMany_pageRows, H.
  - exists [], (skipn offset sel). repeat split; [discriminate].
Qed.

(** Pages before the last are non-empty; the loop returns on an empty one. *)
Lemma trace_pages h offset tagTasks evs out :
  LoopTrace c d w ids h offset tagTasks evs out ->
  forall tasks, out = Returned tasks ->
  exists ps, userPages evs = ps ++ [[]] /\ Forall (fun p => p <> []) ps.
Proof.
  induction 1; intros tasks Hout; try discriminate.
  - exists []. cbn. auto.
  - destruct (IHLoopTrace _ Hout) as (ps & Hps & Hne).
    exists (users :: ps).
    change (users :: userPages evs = (users :: ps) ++ [[]] /\
            Forall (fun p => p <> []) (users :: ps)).
    rewrite Hps. split; [reflexivity |].
    constructor; assumption.
Qed.

Lemma trace_stops h offset tagTasks evs out :
  LoopTrace c d w ids h offset tagTasks evs out ->
  stopsAt emptyPage evs = true.
Proof.
  induction 1; cbn; auto.
  - destruct users; [contradiction | reflexivity].
  - destruct users; [contradiction | reflexivity].
  - destruct users; [contradiction |]. cbn. exact IHLoopTrace.
Qed.

End Traces.

(** ** Fuel *)

Section Fuel.

Variables (c : Client) (d : Db) (w : option Z) (ids : list Z).

Lemma readLoop_terminates (fuel : nat) :
  forall offset tagTasks l,
  length (matching d w ids) - offset < fuel ->
  fst (readLoop fuel c d w ids offset tagTasks l) <> OutOfFuel.
Proof.
  induction fuel as [| fuel IH]; intros offset tagTasks l Hfuel; [lia |].
  rewrite readLoop_step. cbv zeta.
  pose proof (page_nonempty_lt d w ids offset) as Hlt.
  pose proof (page_length_le d w ids offset) as Hle.
  destruct (userFindMany d offset READ_BATCH_SIZE w ids) as [| u us]; [discriminate |].
  destruct (indexReadyRecords (u :: us)) as [e | docs]; [discriminate |].
  destruct (updateDocuments c _ INDEX_ID docs) as [e | task]; [discriminate |].
  apply IH. specialize (Hlt ltac:(discriminate)). cbn [length] in *. lia.
Qed.

Lemma readLoop_more_fuel (fuel : nat) :
  forall k offset tagTasks l,
  fst (readLoop fuel c d w ids offset tagTasks l) <> OutOfFuel ->
  readLoop (fuel + k) c d w ids offset tagTasks l =
  readLoop fuel c d w ids offset tagTasks l.
Proof.
  induction fuel as [| fuel IH]; intros k offset tagTasks l Hout.
  - exfalso. apply Hout. reflexivity.
  - change (S fuel + k) with (S (fuel + k)).
    rewrite !readLoop_step in *. cbv zeta in *.
    destruct (userFindMany d offset READ_BATCH_SIZE w ids) as [| u us]; [reflexivity |].
    destruct (indexReadyRecords (u :: us)) as [e | docs]; [reflexivity |].
    destruct (updateDocuments c _ INDEX_ID docs) as [e | task]; [reflexivity |].
    now apply IH.
Qed.

End Fuel.

(** ** The setup *)

Lemma onIndexSetup_events (c : Client) (name : string) (l : Log) :
  exists sevs,
    snd (onIndexSetup (Some c) name l) = l ++ sevs /\
    forallb isSetupEvent sevs = true /\
    fst (onIndexSetup (Some c) name l) <> OutOfFuel.
Proof.
  unfold onIndexSetup, bind, await_getOrCreateIndex, call. cbv zeta.
  destruct (getOrCreateIndex c (engineView l) name) as [e | [index |]]; cbn [settle].
  2: { unfold await_updateSearchableAttributes, await_updateSortableAttributes,
         await_waitForTasks, call. cbv zeta.
       destruct (updateSearchableAttributes c _ index searchableAttributes)
         as [e | t1]; cbn [settle].
       2: { destruct (updateSortableAttributes c _ index sortableAttributes)
              as [e | t2]; cbn [settle].
            2: { destruct (waitForTasks c _ _) as [e | []]; cbn [settle fst snd];
                 (eexists; split; [rewrite <- !app_assoc; reflexivity |];
                  split; [reflexivity | discriminate]). }
            cbn [fst snd]. eexists; split; [rewrite <- !app_assoc; reflexivity |].
            split; [reflexivity | discriminate]. }
       cbn [fst snd]. eexists; split; [rewrite <- !app_assoc; reflexivity |].
       split; [reflexivity | discriminate]. }
  all: cbn [fst snd ret]; eexists; (split; [reflexivity |]);
       split; [reflexivity | discriminate].
Qed.

(** ** A whole run *)

Lemma onIndexUpdate_unfold (fuel : nat) (c : Client) (ctx : SearchIndexRunContext)
    (l : Log) :
  onIndexUpdate fuel (Some c) ctx l =
  match onIndexSetup (Some c) (indexName ctx) l with
  | (Returned _, l1) =>
      let qids := queueFindMany (db ctx) INDEX_ID in
      match readLoop fuel c (db ctx) (lastUpdatedAt ctx) qids 0 []
                     (l1 ++ [EQueueFindMany INDEX_ID qids]) with
      | (Returned tasks, l2) =>
          let r := waitForTasks c (engineView l2) (map taskUid tasks) in
          (settle r, l2 ++ [EWaitForTasks (map taskUid tasks) r])
      | (Thrown e, l2) => (Thrown e, l2)
      | (OutOfFuel, l2) => (OutOfFuel, l2)
      end
  | (Thrown e, l1) => (Thrown e, l1)
  | (OutOfFuel, l1) => (OutOfFuel, l1)
  end.
Proof.
  unfold onIndexUpdate, bind, await_queueFindMany, await_waitForTasks, call.
  destruct (onIndexSetup (Some c) (indexName ctx) l) as [[[] | e |] l1]; reflexivity.
Qed.

Lemma onIndexUpdate_shape (fuel : nat) (c : Client) (ctx : SearchIndexRunContext)
    (out : Outcome unit) (l : Log) :
  onIndexUpdate fuel (Some c) ctx [] = (out, l) ->
  RunShape c ctx out l.
Proof.
  rewrite onIndexUpdate_unfold.
  destruct (onIndexSetup_events c (indexName ctx) []) as (sevs & Hlog & Hsetup & Hfuel).
  destruct (onIndexSetup (Some c) (indexName ctx) []) as [so sl].
  cbn [fst snd app] in Hlog, Hfuel. subst sl.
  destruct so as [[] | e |]; [| | contradiction].
  2: { intros H; inversion H; subst. now constructor. }
  cbv zeta. set (qids := queueFindMany (db ctx) INDEX_ID).
  destruct (readLoop_trace c (db ctx) (lastUpdatedAt ctx) qids fuel 0 []
              (sevs ++ [EQueueFindMany INDEX_ID qids]))
    as (levs & lout & Hrun & Htrace).
  rewrite Hrun. rewrite <- app_assoc. cbn [app].
  destruct lout as [tasks | e |]; intros H.
  - rewrite <- app_assoc in H. cbn [app] in H. inversion H; subst.
    now apply RunJoins.
  - inversion H; subst. now apply RunLoopFails with (lout := Thrown e).
  - inversion H; subst. now apply RunLoopFails with (lout := OutOfFuel).
Qed.

Lemma enoughFuel_enough (ctx : SearchIndexRunContext) (ids : list Z) (k : nat) :
  length (matching (db ctx) (lastUpdatedAt ctx) ids) - 0 < enoughFuel ctx + k.
Proof.
  unfold enoughFuel, matching.
  pose proof (filter_length_le (userWhere (lastUpdatedAt ctx) ids) (user (db ctx))).
  lia.
Qed.

(** Fuel beyond [enoughFuel] changes nothing, and [run] never runs out. *)
Lemma onIndexUpdate_fuel (client : option Client) (ctx : SearchIndexRunContext) (k : nat) :
  onIndexUpdate (enoughFuel ctx + k) client ctx [] = run client ctx /\
  fst (run client ctx) <> OutOfFuel.
Proof.
  unfold run. destruct client as [c |]; [| split; [reflexivity | discriminate]].
  rewrite !onIndexUpdate_unfold.
  destruct (onIndexSetup_events c (indexName ctx) []) as (sevs & Hlog & Hsetup & Hfuel).
  destruct (onIndexSetup (Some c) (indexName ctx) []) as [so sl].
  cbn [fst snd] in Hfuel.
  destruct so as [[] | e |]; [| split; [reflexivity | discriminate] | contradiction].
  cbv zeta. set (qids := queueFindMany (db ctx) INDEX_ID).
  set (l0 := sl ++ [EQueueFindMany INDEX_ID qids]).
  pose proof (readLoop_terminates c (db ctx) (lastUpdatedAt ctx) qids
                (enoughFuel ctx) 0 [] l0) as Hterm.
  specialize (Hterm ltac:(pose proof (enoughFuel_enough ctx qids 0); lia)).
  rewrite (readLoop_more_fuel c (db ctx) (lastUpdatedAt ctx) qids (enoughFuel ctx)
             k 0 [] l0 Hterm).
  split; [reflexivity |].
  destruct (readLoop (enoughFuel ctx) c (db ctx) (lastUpdatedAt ctx) qids 0 [] l0)
    as [[tasks | e |] l1]; cbn [fst] in *; try discriminate; [| contradiction].
  destruct (waitForTasks c _ _); discriminate.
Qed.

Lemma run_shape (c : Client) (ctx : SearchIndexRunContext) :
  RunShape c ctx (fst (run (Some c) ctx)) (snd (run (Some c) ctx)).
Proof.
  apply onIndexUpdate_shape with (fuel := enoughFuel ctx).
  fold (run (Some c) ctx). now destruct (run (Some c) ctx).
Qed.

(** Case analysis on how a run with client [c] ended: the setup threw,
    the loop did not return, or the loop returned and its tasks were
    joined. *)
Ltac run_cases c ctx :=
  let H := fresh "Hshape" in
  pose proof (run_shape c ctx) as H;
  destruct (run (Some c) ctx) as [out l]; cbn [fst snd] in *;
  destruct H as [sevs e Hs | sevs levs lout out Hs Ht Hf | sevs levs tasks r Hs Ht].

(** ** Projections of a log *)

Lemma userPages_app (a b : Log) : userPages (a ++ b) = userPages a ++ userPages b.
Proof. apply flat_map_app. Qed.

Lemma readSet_app (a b : Log) : readSet (a ++ b) = readSet a ++ readSet b.
Proof. unfold readSet. now rewrite userPages_app, concat_app. Qed.

Lemma upserts_app (a b : Log) : upserts (a ++ b) = upserts a ++ upserts b.
Proof. apply flat_map_app. Qed.

Lemma batches_app (a b : Log) : batches (a ++ b) = batches a ++ batches b.
Proof. unfold batches. now rewrite upserts_app, map_app. Qed.

Lemma upsertTasks_app (a b : Log) :
  upsertTasks (a ++ b) = upsertTasks a ++ upsertTasks b.
Proof. apply flat_map_app. Qed.

Lemma acceptedBatches_app (a b : Log) :
  acceptedBatches (a ++ b) = acceptedBatches a ++ acceptedBatches b.
Proof. apply flat_map_app. Qed.


(** The setup reads no page, submits no batch and deletes nothing. *)
Lemma setup_silent (sevs : Log) :
  forallb isSetupEvent sevs = true ->
  userPages sevs = [] /\ upserts sevs = [] /\ upsertTasks sevs = [] /\
  acceptedBatches sevs = [] /\ queueDeletes sevs = [] /\
  forallb (fun e => negb (isLoopEvent e)) sevs = true.
Proof.
  induction sevs as [| e sevs IH]; cbn; [auto 6 |].
  intros H. apply andb_prop in H. destruct H as [He Hs].
  destruct (IH Hs) as (H1 & H2 & H3 & H4 & H5 & H6).
  destruct e; try discriminate; cbn; auto 6.
Qed.

Lemma stopsAt_skip (short : nat -> list UserRecord -> bool) (a b : Log) :
  userPages a = [] -> stopsAt short (a ++ b) = stopsAt short b.
Proof.
  induction a as [| e a IH]; intros H; [reflexivity |].
  destruct e; cbn in *; try discriminate; auto.
Qed.

Lemma stopsAt_snoc (short : nat -> list UserRecord -> bool) (l : Log) (e : Event) :
  isLoopEvent e = false ->
  stopsAt short l = true -> stopsAt short (l ++ [e]) = true.
Proof.
  intros He. induction l as [| x l IH]; intros H.
  - destruct e; try discriminate; reflexivity.
  - destruct x; cbn in *; auto.
    destruct (short take rows); auto.
    rewrite forallb_app, H. cbn. now rewrite He.
Qed.

Lemma acceptedBatches_tasks (l : Log) :
  map snd (acceptedBatches l) = upsertTasks l.
Proof.
  induction l as [| e l IH]; [reflexivity |].
  destruct e as [| | | name docs [e | t] | | | |]; try exact IH.
  change (t :: map snd (acceptedBatches l) = t :: upsertTasks l).
  now rewrite IH.
Qed.

(** When the loop returns, the engine accepted every batch. *)
Lemma trace_accepted (c : Client) (d : Db) (w : option Z) (ids : list Z)
    h offset tagTasks evs out :
  LoopTrace c d w ids h offset tagTasks evs out ->
  forall tasks, out = Returned tasks ->
  map fst (acceptedBatches evs) = batches evs.
Proof.
  induction 1; intros tasks Hout; try discriminate; [reflexivity |].
  change (docs :: map fst (acceptedBatches evs) = docs :: batches evs).
  now rewrite (IHLoopTrace _ Hout).
Qed.

(** * The claims *)

(** ** No client configured *)

(** C4. When no index engine client is configured, [onIndexSetup] and
    [onIndexUpdate] both return normally, whatever their input, and the
    log is left as it was: no engine operation (and no store read) is
    performed and nothing is thrown. *)
Theorem no_client_is_noop (fuel : nat) (name : string)
    (ctx : SearchIndexRunContext) (l : Log) :
  onIndexSetup None name l = (Returned tt, l) /\
  onIndexUpdate fuel None ctx l = (Returned tt, l).
Proof. split; reflexivity. Qed.

(** ** The transformer *)

(** The head of the nested selection is the first all-time record. *)
Lemma first_selected_metric (ms : list UserMetric) :
  match selectMetrics ms with
  | [] => []
  | m :: _ => m
  end =
  match find (fun m => isAllTime (timeframe m)) ms with
  | Some m => selectMetric m
  | None => []
  end.
Proof.
  unfold selectMetrics.
  induction ms as [| m ms IH]; [reflexivity |]. cbn.
  destruct (isAllTime (timeframe m)); [reflexivity | exact IH].
Qed.

(** ** The target of the upserts *)

(** Every batch goes to [INDEX_ID], whatever [indexName] the run was given. *)
Lemma upserts_target_INDEX_ID (c : Client) (ctx : SearchIndexRunContext) :
  Forall (fun b => fst b = INDEX_ID) (upserts (snd (run (Some c) ctx))).
Proof.
  run_cases c ctx;
    destruct (setup_silent sevs Hs) as (_ & Hu & _).
  - rewrite Hu. constructor.
  - rewrite upserts_app, Hu. cbn.
    exact (trace_target _ _ _ _ _ _ _ _ _ Ht).
  - rewrite upserts_app, Hu. cbn. rewrite upserts_app. cbn. rewrite app_nil_r.
    exact (trace_target _ _ _ _ _ _ _ _ _ Ht).
Qed.

(** C1. At a bootstrap run (no [lastUpdatedAt]) that is given the shadow
    index name [creators_NEW], over a store of one live user, the single
    upsert batch is submitted to the live index [creators], not to the
    shadow index. *)
Theorem bootstrap_upserts_go_to_live_index :
  let ctx := context [liveUser 1 0 []] [] None SWAP_INDEX_ID in
  lastUpdatedAt ctx = None /\
  indexName ctx = "creators_NEW"%string /\
  upserts (snd (run (Some acceptingClient) ctx)) =
    [("creators"%string,
      [{| doc_id := 1; doc_username := "u"; doc_rank := None; doc_metrics := [] |}])].
Proof. vm_compute. auto. Qed.

(** ** The read set *)

Lemma userWhere_spec (w : option Z) (ids : list Z) (u : User) :
  userWhere w ids u = true <->
  deletedAt u = None /\
  (w = None \/ (exists t, w = Some t /\ (t < createdAt u)%Z) \/ In (id u) ids).
Proof.
  unfold userWhere. split.
  - destruct (deletedAt u); [discriminate |]. intros H. split; [reflexivity |].
    destruct w as [t |]; [| now left]. right.
    apply orb_prop in H. destruct H as [H | H].
    + left. exists t. split; [reflexivity |]. now apply Z.ltb_lt.
    + right. apply existsb_exists in H. destruct H as (x & Hin & Hx).
      apply Z.eqb_eq in Hx. now subst.
  - intros [Hd H]. rewrite Hd. destruct w as [t |]; [| reflexivity].
    apply orb_true_iff.
    destruct H as [H | [(t' & Ht' & Hlt) | H]]; [discriminate | |].
    + left. inversion Ht'; subst. now apply Z.ltb_lt.
    + right. apply existsb_exists. exists (id u). split; [exact H |].
      apply Z.eqb_refl.
Qed.

(** When the loop returns, the read set is the matching rows, in order. *)
Lemma readSet_run (c : Client) (ctx : SearchIndexRunContext) :
  fst (run (Some c) ctx) = Returned tt ->
  readSet (snd (run (Some c) ctx)) =
  map selectUser (matching (db ctx) (lastUpdatedAt ctx) (queueFindMany (db ctx) INDEX_ID)).
Proof.
  run_cases c ctx;
    intros Hout; try discriminate.
  - destruct lout; cbn in Hf; inversion Hf; subst; discriminate.
  - destruct (setup_silent sevs Hs) as (Hp & _).
    unfold readSet in *. rewrite userPages_app, Hp. cbn [app].
    change (concat (userPages (levs ++ [EWaitForTasks (map taskUid tasks) r])) = 
            map selectUser (skipn 0 (matching (db ctx) (lastUpdatedAt ctx)
                                       (queueFindMany (db ctx) INDEX_ID)))).
    rewrite userPages_app. cbn. rewrite app_nil_r.
    exact (trace_readSet _ _ _ _ _ _ _ _ _ Ht tasks eq_refl).
Qed.

(** C2, as the code has it. When a run with a configured client returns,
    its read set is the selection of the rows that are not soft-deleted
    and for which the watermark is absent, or [createdAt] is strictly
    after the watermark, or the id is among the queued ids of the index
    kind; no other row is read. *)
Theorem read_set_selection (c : Client) (ctx : SearchIndexRunContext) :
  fst (run (Some c) ctx) = Returned tt ->
  let ids := queueFindMany (db ctx) INDEX_ID in
  let rows := matching (db ctx) (lastUpdatedAt ctx) ids in
  readSet (snd (run (Some c) ctx)) = map selectUser rows /\
  forall u,
    In u rows <->
    In u (user (db ctx)) /\
    deletedAt u = None /\
    (lastUpdatedAt ctx = None \/
     (exists t, lastUpdatedAt ctx = Some t /\ (t < createdAt u)%Z) \/
     In (id u) ids).
Proof.
  intros Hout ids rows. split; [now apply readSet_run |].
  intros u. unfold rows, matching. rewrite filter_In, userWhere_spec. tauto.
Qed.

Lemma read_set_selection_witness :
  let ctx := context [deletedUser 1 0; liveUser 2 5 []; liveUser 3 20 []; liveUser 4 1 []]
                     [{| q_type := INDEX_ID; q_id := 4 |}] (Some 10%Z) INDEX_ID in
  readSet (snd (run (Some acceptingClient) ctx)) =
  map selectUser [liveUser 3 20 []; liveUser 4 1 []].
Proof.
  intros ctx.
  exact (proj1 (read_set_selection acceptingClient ctx eq_refl)).
Defined.

(** C2, as the specification words it, fails: at a bootstrap run a
    soft-deleted row is not read although the watermark is absent. *)
Lemma read_set_excludes_deleted_rows :
  let u := deletedUser 1 0 in
  let ctx := context [u] [] None INDEX_ID in
  In u (user (db ctx)) /\
  ~ readSetClaim ctx (snd (run (Some acceptingClient) ctx)) u.
Proof.
  split; [now left |].
  unfold readSetClaim. intros [_ H].
  assert (Hin : In (selectUser (deletedUser 1 0))
                   (readSet (snd (run (Some acceptingClient)
                                      (context [deletedUser 1 0] [] None INDEX_ID))))).
  { apply H. left. reflexivity. }
  vm_compute in Hin. exact Hin.
Qed.

(** ** The final join *)

(** A run with a client that returns ends with the completed join of the
    tasks of all its batches, and every batch was accepted. *)
Lemma final_join_shape (c : Client) (ctx : SearchIndexRunContext) :
  fst (run (Some c) ctx) = Returned tt ->
  exists l,
    snd (run (Some c) ctx) =
      l ++ [EWaitForTasks (map taskUid (upsertTasks l)) (inr tt)] /\
    map fst (acceptedBatches l) = batches l.
Proof.
  run_cases c ctx;
    intros Hout; try discriminate.
  - destruct lout; cbn in Hf; inversion Hf; subst; discriminate.
  - destruct r as [e | []]; [discriminate |].
    destruct (setup_silent sevs Hs) as (_ & Hu & Hts & Hab & _).
    pose proof (trace_tasks _ _ _ _ _ _ _ _ _ Ht tasks eq_refl) as Htasks.
    cbn [app] in Htasks.
    set (q := EQueueFindMany INDEX_ID (queueFindMany (db ctx) INDEX_ID)).
    exists (sevs ++ q :: levs).
    assert (Hup : upsertTasks (sevs ++ q :: levs) = tasks).
    { rewrite upsertTasks_app, Hts. cbn. now symmetry. }
    rewrite Hup. split; [now rewrite <- app_assoc |].
    rewrite acceptedBatches_app, batches_app, Hab. unfold batches at 1.
    rewrite Hu. cbn [app map].
    exact (trace_accepted _ _ _ _ _ _ _ _ _ Ht tasks eq_refl).
Qed.

(** C5. When a run returns, either no client is configured and nothing
    was done, or the log ends with a completed [waitForTasks] whose task
    ids are those of the tasks of all the upsert batches submitted before
    it, in order: the sets of ids are equal, every submitted batch has its
    task among them, and the run returns only after that join. *)
Theorem final_join_covers_upserts (client : option Client)
    (ctx : SearchIndexRunContext) :
  fst (run client ctx) = Returned tt ->
  (client = None /\ snd (run client ctx) = []) \/
  exists l uids,
    snd (run client ctx) = l ++ [EWaitForTasks uids (inr tt)] /\
    uids = map taskUid (upsertTasks l) /\
    map snd (acceptedBatches l) = upsertTasks l /\
    map fst (acceptedBatches l) = batches l /\
    (forall i, In i uids <-> exists t, In t (upsertTasks l) /\ taskUid t = i).
Proof.
  destruct client as [c |]; [| intros _; left; split; reflexivity].
  intros Hout. right.
  destruct (final_join_shape c ctx Hout) as (l & Hl & Hacc).
  exists l, (map taskUid (upsertTasks l)).
  split; [exact Hl |]. split; [reflexivity |].
  split; [apply acceptedBatches_tasks |]. split; [exact Hacc |].
  intros i. rewrite in_map_iff. split; intros (t & H1 & H2); eauto.
Qed.

Lemma final_join_covers_upserts_witness :
  exists l uids,
    snd (run (Some acceptingClient) (context [liveUser 1 0 []] [] None INDEX_ID))
      = l ++ [EWaitForTasks uids (inr tt)] /\
    uids = map taskUid (upsertTasks l).
Proof.
  destruct (final_join_covers_upserts (Some acceptingClient)
              (context [liveUser 1 0 []] [] None INDEX_ID) eq_refl)
    as [[H _] | (l & uids & Hl & Hu & _)].
  - discriminate H.
  - exists l, uids. split; assumption.
Defined.

(** ** Termination of the read loop *)

Lemma run_stops_at (short : nat -> list UserRecord -> bool)
    (client : option Client) (ctx : SearchIndexRunContext) :
  (forall c d w ids h offset tagTasks evs out,
     LoopTrace c d w ids h offset tagTasks evs out -> stopsAt short evs = true) ->
  stopsAt short (snd (run client ctx)) = true.
Proof.
  intros Hloop. destruct client as [c |]; [| reflexivity].
  run_cases c ctx;
    destruct (setup_silent sevs Hs) as (Hp & _).
  - rewrite <- (app_nil_r sevs). now rewrite stopsAt_skip.
  - rewrite stopsAt_skip by exact Hp. cbn. eauto.
  - rewrite stopsAt_skip by exact Hp. cbn.
    apply stopsAt_snoc; [reflexivity | eauto].
Qed.

(** C6, as the code has it. The read loop terminates on every store:
    [enoughFuel] iterations always suffice and more fuel changes nothing.
    It ends at the first page that returns zero rows: no read and no
    upsert follows an empty page, and when the run returns, the last page
    read is empty and every page before it is not. *)
Theorem read_loop_terminates (client : option Client)
    (ctx : SearchIndexRunContext) (k : nat) :
  onIndexUpdate (enoughFuel ctx + k) client ctx [] = run client ctx /\
  fst (run client ctx) <> OutOfFuel /\
  stopsAt emptyPage (snd (run client ctx)) = true /\
  (forall c, client = Some c -> fst (run client ctx) = Returned tt ->
   exists ps, userPages (snd (run client ctx)) = ps ++ [[]] /\
              Forall (fun p => p <> []) ps).
Proof.
  destruct (onIndexUpdate_fuel client ctx k) as [Hfuel Hterm].
  split; [exact Hfuel |]. split; [exact Hterm |]. split.
  - apply run_stops_at. intros. eapply trace_stops; eauto.
  - intros c ->.
    run_cases c ctx;
      intros Hout; try discriminate.
    + destruct lout; cbn in Hf; inversion Hf; subst; discriminate.
    + destruct (setup_silent sevs Hs) as (Hp & _).
      destruct (trace_pages _ _ _ _ _ _ _ _ _ Ht tasks eq_refl) as (ps & Hps & Hne).
      exists ps. split; [| exact Hne].
      rewrite userPages_app, Hp. cbn [app].
      change (userPages (levs ++ [EWaitForTasks (map taskUid tasks) r]) = ps ++ [[]]).
      rewrite userPages_app. cbn. now rewrite app_nil_r.
Qed.

Lemma read_loop_terminates_witness :
  exists ps,
    userPages (snd (run (Some acceptingClient)
                        (context [liveUser 1 0 []; liveUser 2 0 []] [] None INDEX_ID)))
      = ps ++ [[]] /\
    Forall (fun p => p <> []) ps.
Proof.
  exact (proj2 (proj2 (proj2
    (read_loop_terminates (Some acceptingClient)
       (context [liveUser 1 0 []; liveUser 2 0 []] [] None INDEX_ID) 0)))
    acceptingClient eq_refl eq_refl).
Defined.

(** C6, as the specification words it, fails: over a store of one user the
    first page returns one row, fewer than the 1000 requested, and the
    loop goes on: it submits the batch and reads a second page. *)
Lemma short_page_does_not_stop_the_loop :
  let l := snd (run (Some acceptingClient)
                    (context [liveUser 1 0 []] [] None INDEX_ID)) in
  userPages l = [[selectUser (liveUser 1 0 [])]; []] /\
  stopsAt shortPage l = false.
Proof. vm_compute. split; reflexivity. Qed.

(** ** Batches are disjoint *)

(** Selecting rows keeps their ids distinct. *)
Lemma distinct_ids_selected (keep : User -> bool) (us : list User) :
  NoDup (map id us) -> NoDup (map id (filter keep us)).
Proof.
  induction us as [| u us IH]; cbn; intros H; [constructor |].
  inversion H as [| x xs Hfresh Hrest]; subst.
  destruct (keep u); cbn; [| auto].
  constructor; [| auto].
  intros Hin. apply Hfresh. apply in_map_iff in Hin.
  destruct Hin as (y & Hy & Hin). apply filter_In in Hin.
  rewrite <- Hy. apply in_map. tauto.
Qed.

Lemma NoDup_app_apart {A} (l1 l2 : list A) (x : A) :
  NoDup (l1 ++ l2) -> In x l1 -> ~ In x l2.
Proof.
  induction l1 as [| a l1 IH]; cbn; intros H Hin; [contradiction |].
  inversion H as [| y ys Hnotin Hnd]; subst.
  destruct Hin as [-> | Hin]; [| auto].
  intros Hx. apply Hnotin. apply in_or_app. now right.
Qed.

Lemma NoDup_concat_apart {A} (ls : list (list A)) :
  NoDup (concat ls) ->
  forall i j a b x,
    i <> j -> nth_error ls i = Some a -> nth_error ls j = Some b ->
    In x a -> ~ In x b.
Proof.
  induction ls as [| hd tl IH]; intros Hnd i j a b x Hij Hi Hj Ha Hb.
  - destruct i; discriminate.
  - cbn in Hnd. destruct i as [| i], j as [| j]; cbn in Hi, Hj.
    + contradiction.
    + inversion Hi; subst. apply (NoDup_app_apart _ _ x Hnd Ha).
      apply in_concat. exists b. split; [eapply nth_error_In; eauto | exact Hb].
    + inversion Hj; subst. apply (NoDup_app_apart _ _ x Hnd Hb).
      apply in_concat. exists a. split; [eapply nth_error_In; eauto | exact Ha].
    + apply (IH (NoDup_app_remove_l _ _ Hnd) i j a b x); auto.
Qed.

(** The documents submitted by a run are those of a prefix of the matching
    rows. *)
Lemma run_docs (c : Client) (ctx : SearchIndexRunContext) :
  exists rows rest,
    matching (db ctx) (lastUpdatedAt ctx) (queueFindMany (db ctx) INDEX_ID)
      = rows ++ rest /\
    indexReadyRecords (map selectUser rows)
      = inr (concat (batches (snd (run (Some c) ctx)))) /\
    (fst (run (Some c) ctx) = Returned tt -> rest = []).
Proof.
  run_cases c ctx;
    destruct (setup_silent sevs Hs) as (_ & Hu & _).
  - exists [], (matching (db ctx) (lastUpdatedAt ctx) (queueFindMany (db ctx) INDEX_ID)).
    unfold batches. rewrite Hu. repeat split. discriminate.
  - destruct (trace_docs _ _ _ _ _ _ _ _ _ Ht) as (rows & rest & Hsplit & Hdocs & Hret).
    exists rows, rest. split; [exact Hsplit |]. split.
    + unfold batches in *. rewrite upserts_app, Hu. exact Hdocs.
    + intros ->. destruct lout; cbn in Hf; inversion Hf.
  - destruct (trace_docs _ _ _ _ _ _ _ _ _ Ht) as (rows & rest & Hsplit & Hdocs & Hret).
    exists rows, rest. split; [exact Hsplit |]. split.
    + unfold batches in *. rewrite upserts_app, Hu. cbn [app].
      change (upserts (EQueueFindMany INDEX_ID (queueFindMany (db ctx) INDEX_ID)
                :: levs ++ [EWaitForTasks (map taskUid tasks) r]))
        with (upserts (levs ++ [EWaitForTasks (map taskUid tasks) r])).
      rewrite upserts_app. cbn. rewrite app_nil_r. exact Hdocs.
    + intros _. exact (Hret tasks eq_refl).
Qed.

(** C9. Over a store whose rows have distinct ids (and which does not
    change during the run), no entity id occurs twice among the documents
    of all the batches a run submits: two different batches never hold a
    document of the same id. *)
Theorem batches_are_disjoint (c : Client) (ctx : SearchIndexRunContext) :
  NoDup (map id (user (db ctx))) ->
  let bs := batches (snd (run (Some c) ctx)) in
  NoDup (map doc_id (concat bs)) /\
  forall i j bi bj x,
    i <> j -> nth_error bs i = Some bi -> nth_error bs j = Some bj ->
    In x (map doc_id bi) -> ~ In x (map doc_id bj).
Proof.
  intros Hids bs.
  assert (Hnd : NoDup (map doc_id (concat bs))).
  { destruct (run_docs c ctx) as (rows & rest & Hsplit & Hdocs & _).
    fold bs in Hdocs.
    rewrite (indexReadyRecords_ids _ _ Hdocs), map_map.
    change (NoDup (map id rows)).
    apply (distinct_ids_selected (userWhere (lastUpdatedAt ctx)
                                    (queueFindMany (db ctx) INDEX_ID))) in Hids.
    fold (matching (db ctx) (lastUpdatedAt ctx) (queueFindMany (db ctx) INDEX_ID)) in Hids.
    rewrite Hsplit, map_app in Hids.
    exact (NoDup_app_remove_r _ _ Hids). }
  split; [exact Hnd |].
  intros i j bi bj x Hij Hi Hj.
  rewrite concat_map in Hnd.
  apply (NoDup_concat_apart _ Hnd i j); [exact Hij | |];
    now apply map_nth_error.
Qed.

Lemma batches_are_disjoint_witness :
  NoDup (map doc_id (concat (batches (snd (run (Some acceptingClient)
    (context [liveUser 1 0 []; liveUser 2 0 []; deletedUser 3 0] [] None INDEX_ID)))))).
Proof.
  refine (proj1 (batches_are_disjoint acceptingClient
    (context [liveUser 1 0 []; liveUser 2 0 []; deletedUser 3 0] [] None INDEX_ID) _)).
  cbn. repeat constructor; cbn; intuition discriminate.
Defined.

(** ** Multiplicity of queue entries *)

Lemma userWhere_ext (w : option Z) (ids1 ids2 : list Z) :
  (forall i, In i ids1 <-> In i ids2) ->
  forall u, userWhere w ids1 u = userWhere w ids2 u.
Proof.
  intros H u. apply eq_true_iff_eq. rewrite !userWhere_spec, (H (id u)). tauto.
Qed.

Lemma matching_ext (d : Db) (w : option Z) (ids1 ids2 : list Z) :
  (forall i, In i ids1 <-> In i ids2) ->
  matching d w ids1 = matching d w ids2.
Proof.
  intros H. unfold matching. apply filter_ext. now apply userWhere_ext.
Qed.

Lemma readLoop_ext (c : Client) (d : Db) (w : option Z) (ids1 ids2 : list Z) :
  matching d w ids1 = matching d w ids2 ->
  forall fuel offset tagTasks l1 l2,
  engineView l1 = engineView l2 ->
  exists out evs,
    readLoop fuel c d w ids1 offset tagTasks l1 = (out, l1 ++ evs) /\
    readLoop fuel c d w ids2 offset tagTasks l2 = (out, l2 ++ evs).
Proof.
  intros Hsel. induction fuel as [| fuel IH]; intros offset tagTasks l1 l2 Hview.
  - exists OutOfFuel, []. cbn. unfold outOfFuel. now rewrite !app_nil_r.
  - rewrite !readLoop_step. cbv zeta.
    assert (Hpage : userFindMany d offset READ_BATCH_SIZE w ids2 =
                    userFindMany d offset READ_BATCH_SIZE w ids1).
    { unfold userFindMany. now rewrite Hsel. }
    rewrite Hpage.
    set (users := userFindMany d offset READ_BATCH_SIZE w ids1).
    set (rd := EUserFindMany offset READ_BATCH_SIZE users).
    assert (Hv : engineView (l1 ++ [rd]) = engineView (l2 ++ [rd])).
    { rewrite !engineView_app. now rewrite Hview. }
    rewrite <- Hv.
    destruct users as [| u us] eqn:Husers; [now exists (Returned tagTasks), [rd] |].
    destruct (indexReadyRecords (u :: us)) as [e | docs];
      [now exists (Thrown e), [rd] |].
    destruct (updateDocuments c (engineView (l1 ++ [rd])) INDEX_ID docs) as [e | task].
    + exists (Thrown e), [rd; EUpdateDocuments INDEX_ID docs (inl e)].
      now rewrite <- !app_assoc.
    + set (up := EUpdateDocuments INDEX_ID docs (inr task)).
      destruct (IH (offset + length (u :: us)) (tagTasks ++ [task])
                  ((l1 ++ [rd]) ++ [up]) ((l2 ++ [rd]) ++ [up]))
        as (out & evs & H1 & H2).
      { rewrite (engineView_app (l1 ++ [rd])), (engineView_app (l2 ++ [rd])).
        now rewrite Hv. }
      exists out, (rd :: up :: evs). rewrite H1, H2.
      now rewrite <- !app_assoc.
Qed.

(** Two runs over the same rows whose queues name the same ids end alike,
    and their logs differ at most in the answer of the queue read. *)
Lemma run_queue_ext (c : Client) (ctx ctx' : SearchIndexRunContext) :
  user (db ctx') = user (db ctx) ->
  lastUpdatedAt ctx' = lastUpdatedAt ctx ->
  indexName ctx' = indexName ctx ->
  (forall i, In i (queueFindMany (db ctx) INDEX_ID) <->
             In i (queueFindMany (db ctx') INDEX_ID)) ->
  fst (run (Some c) ctx) = fst (run (Some c) ctx') /\
  (snd (run (Some c) ctx) = snd (run (Some c) ctx') \/
   exists pre post,
     snd (run (Some c) ctx)
       = pre ++ EQueueFindMany INDEX_ID (queueFindMany (db ctx) INDEX_ID) :: post /\
     snd (run (Some c) ctx')
       = pre ++ EQueueFindMany INDEX_ID (queueFindMany (db ctx') INDEX_ID) :: post).
Proof.
  intros Husers Hw Hname Hq. unfold run, enoughFuel.
  rewrite !onIndexUpdate_unfold, Husers, Hw, Hname.
  destruct (onIndexSetup (Some c) (indexName ctx) []) as [[[] | e |] sl];
    [| split; [reflexivity | now left] ..].
  cbv zeta.
  set (ids := queueFindMany (db ctx) INDEX_ID) in *.
  set (ids' := queueFindMany (db ctx') INDEX_ID) in *.
  set (fuel := S (length (user (db ctx)))).
  assert (Hsel : matching (db ctx) (lastUpdatedAt ctx) ids =
                 matching (db ctx') (lastUpdatedAt ctx) ids').
  { unfold matching. rewrite Husers. apply filter_ext. now apply userWhere_ext. }
  assert (Hloop : forall offset tagTasks l,
             readLoop fuel c (db ctx') (lastUpdatedAt ctx) ids' offset tagTasks l =
             readLoop fuel c (db ctx) (lastUpdatedAt ctx) ids' offset tagTasks l).
  { clear - Husers. induction fuel as [| n IH]; intros; [reflexivity |].
    rewrite !readLoop_step. cbv zeta. unfold userFindMany, matching.
    rewrite Husers.
    destruct (map selectUser _); [reflexivity |].
    destruct (indexReadyRecords _); [reflexivity |].
    destruct (updateDocuments c _ INDEX_ID _); [reflexivity | apply IH]. }
  rewrite Hloop.
  assert (Hsel' : matching (db ctx) (lastUpdatedAt ctx) ids =
                  matching (db ctx) (lastUpdatedAt ctx) ids').
  { now apply matching_ext. }
  destruct (readLoop_ext c (db ctx) (lastUpdatedAt ctx) ids ids' Hsel' fuel 0 []
              (sl ++ [EQueueFindMany INDEX_ID ids]) (sl ++ [EQueueFindMany INDEX_ID ids']))
    as (out & evs & H1 & H2).
  { now rewrite !engineView_app. }
  rewrite H1, H2.
  destruct out as [tasks | e |]; cbn [fst snd].
  - assert (Hv : engineView ((sl ++ [EQueueFindMany INDEX_ID ids]) ++ evs) =
                 engineView ((sl ++ [EQueueFindMany INDEX_ID ids']) ++ evs)).
    { now rewrite !engineView_app. }
    rewrite Hv. split; [reflexivity |]. right.
    eexists sl, (evs ++ [_]). rewrite <- !app_assoc. split; reflexivity.
  - split; [reflexivity |]. right. exists sl, evs.
    rewrite <- !app_assoc. split; reflexivity.
  - split; [reflexivity |]. right. exists sl, evs.
    rewrite <- !app_assoc. split; reflexivity.
Qed.

Lemma queueFindMany_In (d : Db) (type : string) (i : Z) :
  In i (queueFindMany d type) <->
  In {| q_type := type; q_id := i |} (searchIndexUpdateQueue d).
Proof.
  unfold queueFindMany. rewrite in_map_iff. split.
  - intros ([t j] & Hid & Hin). apply filter_In in Hin. destruct Hin as [Hin Ht].
    cbn in *. apply String.eqb_eq in Ht. now subst.
  - intros Hin. exists {| q_type := type; q_id := i |}. split; [reflexivity |].
    apply filter_In. split; [exact Hin |]. cbn. apply String.eqb_refl.
Qed.

(** C10. Two queues that name the same ids for the index kind, however
    many entries each id has, give the same run over the same rows: the
    same outcome, the same read set, the same batches to the same index
    and the same engine operations. *)
Theorem queue_multiplicity_is_irrelevant (client : option Client)
    (ctx : SearchIndexRunContext) (q' : list QueueItem) :
  let ctx' := {| db := {| user := user (db ctx); searchIndexUpdateQueue := q' |};
                 lastUpdatedAt := lastUpdatedAt ctx;
                 indexName := indexName ctx |} in
  (forall i, In {| q_type := INDEX_ID; q_id := i |} (searchIndexUpdateQueue (db ctx)) <->
             In {| q_type := INDEX_ID; q_id := i |} q') ->
  fst (run client ctx) = fst (run client ctx') /\
  readSet (snd (run client ctx)) = readSet (snd (run client ctx')) /\
  upserts (snd (run client ctx)) = upserts (snd (run client ctx')) /\
  engineView (snd (run client ctx)) = engineView (snd (run client ctx')).
Proof.
  intros ctx' Hq. destruct client as [c |]; [| repeat split].
  destruct (run_queue_ext c ctx ctx' eq_refl eq_refl eq_refl) as [Hout Hlog].
  { intros i. rewrite !queueFindMany_In. apply Hq. }
  split; [exact Hout |].
  destruct Hlog as [-> | (pre & post & -> & ->)]; [repeat split |].
  rewrite !readSet_app, !upserts_app, !engineView_app. repeat split.
Qed.

Lemma queue_multiplicity_is_irrelevant_witness :
  let e := {| q_type := INDEX_ID; q_id := 2 |} in
  let us := [liveUser 1 0 []; liveUser 2 0 []] in
  readSet (snd (run (Some acceptingClient) (context us [e] (Some 5%Z) INDEX_ID))) =
  readSet (snd (run (Some acceptingClient) (context us [e; e] (Some 5%Z) INDEX_ID))).
Proof.
  intros e us.
  refine (proj1 (proj2 (queue_multiplicity_is_irrelevant (Some acceptingClient)
            (context us [e] (Some 5%Z) INDEX_ID) [e; e] _))).
  intros i. cbn. tauto.
Defined.

(** ** Clearing the queue *)

Lemma indexReadyRecords_In (rs : list UserRecord) :
  forall ds r, indexReadyRecords rs = inr ds -> In r rs ->
  exists doc, indexReadyRecord r = inr doc /\ In doc ds.
Proof.
  induction rs as [| r0 rs IH]; intros ds r H Hin; [contradiction |].
  cbn in H.
  destruct (indexReadyRecord r0) as [e | d0] eqn:H0; [discriminate |].
  destruct (indexReadyRecords rs) as [e | xs]; [discriminate |].
  inversion H; subst. destruct Hin as [<- | Hin].
  - exists d0. split; [exact H0 | now left].
  - destruct (IH xs r eq_refl Hin) as (doc & Hdoc & Hd).
    exists doc. split; [exact Hdoc | now right].
Qed.





(** * Further properties of the processor *)

(** ** The setup, case by case *)

(** Whatever the engine answers, the setup ends in one of six ways. *)
Lemma onIndexSetup_cases (c : Client) (name : string) (l : Log) :
  exists out sevs,
    onIndexSetup (Some c) name l = (out, l ++ sevs) /\
    ((exists e, out = Thrown e /\ sevs = [EGetOrCreateIndex name (inl e)]) \/
     (out = Returned tt /\ sevs = [EGetOrCreateIndex name (inr None)]) \/
     (exists index e,
        out = Thrown e /\
        sevs = [ EGetOrCreateIndex name (inr (Some index));
                 EUpdateSearchableAttributes (uid index) searchableAttributes (inl e) ]) \/
     (exists index t1 e,
        out = Thrown e /\
        sevs = [ EGetOrCreateIndex name (inr (Some index));
                 EUpdateSearchableAttributes (uid index) searchableAttributes (inr t1);
                 EUpdateSortableAttributes (uid index) sortableAttributes (inl e) ]) \/
     (exists index t1 t2 r,
        out = settle r /\
        sevs = [ EGetOrCreateIndex name (inr (Some index));
                 EUpdateSearchableAttributes (uid index) searchableAttributes (inr t1);
                 EUpdateSortableAttributes (uid index) sortableAttributes (inr t2);
                 EWaitForTasks [taskUid t1; taskUid t2] r ])).
Proof.
  unfold onIndexSetup, bind, await_getOrCreateIndex, call. cbv zeta.
  destruct (getOrCreateIndex c (engineView l) name) as [e | [index |]]; cbn [settle].
  - eexists _, _. split; [reflexivity |]. left. exists e. split; reflexivity.
  - unfold await_updateSearchableAttributes, await_updateSortableAttributes,
      await_waitForTasks, call. cbv zeta.
    destruct (updateSearchableAttributes c _ index searchableAttributes)
      as [e | t1]; cbn [settle].
    + eexists _, _. split; [rewrite <- !app_assoc; reflexivity |].
      right. right. left. exists index, e. split; reflexivity.
    + destruct (updateSortableAttributes c _ index sortableAttributes)
        as [e | t2]; cbn [settle].
      * eexists _, _. split; [rewrite <- !app_assoc; reflexivity |].
        right. right. right. left. exists index, t1, e. split; reflexivity.
      * eexists _, _. split; [rewrite <- !app_assoc; reflexivity |].
        right. right. right. right. exists index, t1, t2.
        eexists. split; reflexivity.
  - eexists _, _. split; [reflexivity |]. right. left. auto.
Qed.

Lemma failfast_returned {A} (a : A) (evs : Log) :
  FailFast (Returned a) evs -> Clean evs.
Proof.
  intros [H | (pre & ev & x & _ & _ & _ & H)]; [exact H | discriminate].
Qed.

Lemma failfast_app {A} (out : Outcome A) (a b : Log) :
  Clean a -> FailFast out b -> FailFast out (a ++ b).
Proof.
  intros Ha [Hb | (pre & ev & x & -> & Hpre & Hev & Hout)].
  - left. now apply Forall_app.
  - right. exists (a ++ pre), ev, x. rewrite app_assoc.
    repeat split; auto. now apply Forall_app.
Qed.

Lemma failfast_split {A} (out : Outcome A) (l before after : Log)
    (ev : Event) (x : Exn) :
  FailFast out l ->
  l = before ++ ev :: after ->
  threw ev = Some x ->
  after = [] /\ out = Thrown x.
Proof.
  intros [Hclean | (pre & ev' & x' & Hl & Hpre & Hev' & Hout)] Hsplit Hev.
  - exfalso. subst l. apply Forall_app in Hclean. destruct Hclean as [_ Hc].
    inversion Hc; subst. congruence.
  - subst l. destruct (exists_last (l := ev :: after) ltac:(discriminate))
      as (front & z & Hlast).
    rewrite Hlast, app_assoc in Hsplit. apply app_inj_tail in Hsplit.
    destruct Hsplit as [Hfront ->].
    destruct after as [| a after].
    + destruct front as [| f front]; cbn in Hlast.
      * inversion Hlast; subst. split; [reflexivity | congruence].
      * inversion Hlast as [[Hf Hnil]]. destruct front; discriminate.
    + exfalso. destruct front as [| f front]; cbn in Hlast.
      * discriminate.
      * inversion Hlast; subst.
        apply Forall_app in Hpre. destruct Hpre as [_ Hc].
        inversion Hc; subst. congruence.
Qed.

Lemma onIndexSetup_failfast (c : Client) (name : string) (out : Outcome unit)
    (sevs : Log) :
  onIndexSetup (Some c) name [] = (out, sevs) -> FailFast out sevs.
Proof.
  intros H.
  destruct (onIndexSetup_cases c name []) as (out' & sevs' & Hrun & Hcases).
  rewrite H in Hrun. cbn [app] in Hrun. inversion Hrun; subst out' sevs'. clear Hrun.
  destruct Hcases
    as [(e & -> & ->) | [(-> & ->) | [(index & e & -> & ->)
       | [(index & t1 & e & -> & ->) | (index & t1 & t2 & r & -> & ->)]]]].
  - right. exists [], (EGetOrCreateIndex name (inl e)), e.
    repeat split. constructor.
  - left. repeat constructor.
  - right. eexists [_], _, e. repeat split. repeat constructor.
  - right. eexists [_; _], _, e. repeat split. repeat constructor.
  - destruct r as [e | []].
    + right. eexists [_; _; _], _, e. repeat split. repeat constructor.
    + left. repeat constructor.
Qed.

Lemma onIndexSetup_done (c : Client) (name : string) (sevs : Log) :
  onIndexSetup (Some c) name [] = (Returned tt, sevs) -> SetupDone name sevs.
Proof.
  intros H.
  destruct (onIndexSetup_cases c name []) as (out' & sevs' & Hrun & Hcases).
  rewrite H in Hrun. cbn [app] in Hrun. inversion Hrun; subst out' sevs'. clear Hrun.
  destruct Hcases
    as [(e & Hout & ->) | [(_ & ->) | [(index & e & Hout & ->)
       | [(index & t1 & e & Hout & ->) | (index & t1 & t2 & r & Hout & ->)]]]];
    try discriminate.
  - now left.
  - right. destruct r as [e | []]; [discriminate |]. eauto.
Qed.

(** ** The anatomy of a run *)

Lemma run_anatomy (c : Client) (ctx : SearchIndexRunContext) :
  RunAnatomy c ctx (fst (run (Some c) ctx)) (snd (run (Some c) ctx)).
Proof.
  unfold run. rewrite onIndexUpdate_unfold.
  destruct (onIndexSetup_events c (indexName ctx) []) as (sevs & Hlog & _ & Hfuel).
  destruct (onIndexSetup (Some c) (indexName ctx) []) as [so sl] eqn:Hsetup.
  cbn [fst snd app] in Hlog, Hfuel. subst sl.
  destruct so as [[] | e |]; [| now constructor | contradiction].
  cbv zeta. set (qids := queueFindMany (db ctx) INDEX_ID).
  destruct (readLoop_trace c (db ctx) (lastUpdatedAt ctx) qids (enoughFuel ctx) 0 []
              (sevs ++ [EQueueFindMany INDEX_ID qids]))
    as (levs & lout & Hrun & Htrace).
  rewrite Hrun. rewrite <- app_assoc. cbn [app].
  destruct lout as [tasks | e |]; cbn [fst snd].
  - rewrite <- app_assoc. cbn [app]. now apply AnatomyJoins.
  - now apply AnatomyLoopFails with (lout := Thrown e).
  - now apply AnatomyLoopFails with (lout := OutOfFuel).
Qed.

(** ** Failures end the run *)

Lemma trace_failfast (c : Client) (d : Db) (w : option Z) (ids : list Z)
    h offset tagTasks evs out :
  LoopTrace c d w ids h offset tagTasks evs out -> FailFast out evs.
Proof.
  induction 1.
  - left. repeat constructor.
  - left. repeat constructor.
  - right. exists [EUserFindMany offset READ_BATCH_SIZE users],
      (EUpdateDocuments INDEX_ID docs (inl e)), e.
    repeat split. repeat constructor.
  - apply (failfast_app out
             [EUserFindMany offset READ_BATCH_SIZE users;
              EUpdateDocuments INDEX_ID docs (inr task)] evs);
      [repeat constructor | exact IHLoopTrace].
  - left. constructor.
Qed.

Lemma run_failfast (c : Client) (ctx : SearchIndexRunContext) :
  FailFast (fst (run (Some c) ctx)) (snd (run (Some c) ctx)).
Proof.
  pose proof (run_anatomy c ctx) as H.
  destruct (run (Some c) ctx) as [out l]. cbn [fst snd] in *.
  destruct H as [sevs e Hs | sevs levs lout out Hs Ht Hf | sevs levs tasks r Hs Ht].
  - exact (onIndexSetup_failfast c _ _ _ Hs).
  - pose proof (failfast_returned tt sevs (onIndexSetup_failfast c _ _ _ Hs)) as Hc.
    change (sevs ++ ?q :: levs) with (sevs ++ [q] ++ levs). rewrite app_assoc.
    apply failfast_app; [apply Forall_app; split; [exact Hc | repeat constructor] |].
    pose proof (trace_failfast _ _ _ _ _ _ _ _ _ Ht) as Hl.
    destruct lout as [tasks | e |]; cbn in Hf; inversion Hf; subst.
    + destruct Hl as [Hl | (pre & ev & x & -> & Hpre & Hev & Hx)]; [now left |].
      right. exists pre, ev, x. repeat split; auto. congruence.
    + destruct Hl as [Hl | (pre & ev & x & _ & _ & _ & Hx)]; [now left | discriminate].
  - pose proof (failfast_returned tt sevs (onIndexSetup_failfast c _ _ _ Hs)) as Hc.
    pose proof (failfast_returned tasks levs (trace_failfast _ _ _ _ _ _ _ _ _ Ht)) as Hl.
    set (q := EQueueFindMany INDEX_ID (queueFindMany (db ctx) INDEX_ID)).
    assert (Hpre : Clean (sevs ++ q :: levs)).
    { apply Forall_app. split; [exact Hc |]. constructor; [reflexivity | exact Hl]. }
    change (sevs ++ q :: levs ++ [EWaitForTasks (map taskUid tasks) r])
      with (sevs ++ (q :: levs) ++ [EWaitForTasks (map taskUid tasks) r]).
    rewrite app_assoc.
    destruct r as [e | []].
    + right. exists (sevs ++ q :: levs), (EWaitForTasks (map taskUid tasks) (inl e)), e.
      repeat split. exact Hpre.
    + left. apply Forall_app. split; [exact Hpre | repeat constructor].
Qed.

(** X2. Exceptions of the engine are never caught: an operation that
    throws is the last thing the run does, and the run ends by throwing
    the same exception. *)
Theorem failure_ends_run (client : option Client) (ctx : SearchIndexRunContext)
    (before after : Log) (ev : Event) (x : Exn) :
  snd (run client ctx) = before ++ ev :: after ->
  threw ev = Some x ->
  after = [] /\ fst (run client ctx) = Thrown x.
Proof.
  destruct client as [c |].
  - intros Hsplit Hev. exact (failfast_split _ _ _ _ _ _ (run_failfast c ctx) Hsplit Hev).
  - intros Hsplit. exfalso. cbn in Hsplit. destruct before; discriminate.
Qed.

Lemma failure_ends_run_witness :
  fst (run (Some rejectingClient) (context [liveUser 1 0 []] [] None INDEX_ID))
  = Thrown "rejected"%string.
Proof.
  set (ctx := context [liveUser 1 0 []] [] None INDEX_ID).
  refine (proj2 (failure_ends_run (Some rejectingClient) ctx
    (removelast (snd (run (Some rejectingClient) ctx))) []
    (EUpdateDocuments INDEX_ID
       [{| doc_id := 1; doc_username := "u"; doc_rank := None; doc_metrics := [] |}]
       (inl "rejected"%string)) "rejected"%string _ _)); reflexivity.
Defined.

(** ** The setup and the documents *)

(** X1. When [onIndexSetup] returns with a configured client, it asked
    for the index [indexName] and then either got none and did nothing
    more, or sent the searchable and the sortable attributes to the index
    it got and waited for exactly those two tasks, successfully. *)
Theorem setup_returns_configured (c : Client) (name : string) (l l' : Log) :
  onIndexSetup (Some c) name l = (Returned tt, l') ->
  exists sevs, l' = l ++ sevs /\ SetupDone name sevs.
Proof.
  intros H.
  destruct (onIndexSetup_cases c name l) as (out & sevs & Hrun & Hcases).
  rewrite H in Hrun. inversion Hrun as [[Ho Hl]]. subst out.
  exists sevs. split; [reflexivity |].
  destruct Hcases
    as [(e & Hout & ->) | [(_ & ->) | [(index & e & Hout & ->)
       | [(index & t1 & e & Hout & ->) | (index & t1 & t2 & r & Hout & ->)]]]];
    try discriminate.
  - now left.
  - right. destruct r as [e | []]; [discriminate |]. eauto.
Qed.

Lemma setup_returns_configured_witness :
  exists sevs,
    snd (onIndexSetup (Some acceptingClient) SWAP_INDEX_ID []) = [] ++ sevs /\
    SetupDone SWAP_INDEX_ID sevs.
Proof.
  exact (setup_returns_configured acceptingClient SWAP_INDEX_ID [] _ eq_refl).
Defined.

Lemma split_after_prefix (l1 rest pre post : Log) (x ev : Event) :
  l1 ++ x :: rest = pre ++ ev :: post ->
  ~ In ev l1 -> ev <> x ->
  exists mid, pre = l1 ++ x :: mid.
Proof.
  revert pre. induction l1 as [| a l1 IH]; intros pre Heq Hnotin Hneq.
  - destruct pre as [| p pre]; cbn in Heq; inversion Heq; subst.
    + contradiction.
    + now exists pre.
  - destruct pre as [| p pre]; cbn in Heq; inversion Heq; subst.
    + exfalso. apply Hnotin. now left.
    + destruct (IH pre H1) as (mid & ->); [intros Hin; apply Hnotin; now right | exact Hneq |].
      now exists mid.
Qed.

(** X3. Documents come after the setup: in every run, a page read or an
    upsert is preceded by the whole setup for [indexName], which returned
    (with its two schema tasks joined, or without an index), and by the
    read of the queue. *)
Theorem documents_follow_setup (c : Client) (ctx : SearchIndexRunContext)
    (pre post : Log) (ev : Event) :
  snd (run (Some c) ctx) = pre ++ ev :: post ->
  isLoopEvent ev = true ->
  exists sevs mid,
    pre = sevs ++ EQueueFindMany INDEX_ID (queueFindMany (db ctx) INDEX_ID) :: mid /\
    SetupDone (indexName ctx) sevs.
Proof.
  pose proof (run_anatomy c ctx) as H.
  destruct (run (Some c) ctx) as [out l]. cbn [fst snd] in *.
  intros Hsplit Hev.
  assert (Hquiet : forall sevs o,
            onIndexSetup (Some c) (indexName ctx) [] = (o, sevs) -> ~ In ev sevs).
  { intros sevs o Hs Hin.
    destruct (onIndexSetup_events c (indexName ctx) []) as (sevs' & Hlog & Hsetup & _).
    rewrite Hs in Hlog. cbn in Hlog. subst sevs'.
    destruct (setup_silent sevs Hsetup) as (_ & _ & _ & _ & _ & Hno).
    rewrite forallb_forall in Hno. specialize (Hno ev Hin).
    rewrite Hev in Hno. discriminate. }
  assert (Hq : ev <> EQueueFindMany INDEX_ID (queueFindMany (db ctx) INDEX_ID)).
  { intros ->. discriminate. }
  destruct H as [sevs e Hs | sevs levs lout out Hs Ht Hf | sevs levs tasks r Hs Ht].
  - exfalso. apply (Hquiet sevs _ Hs). rewrite Hsplit.
    apply in_or_app. right. now left.
  - destruct (split_after_prefix _ _ _ _ _ _ Hsplit (Hquiet sevs _ Hs) Hq) as (mid & ->).
    exists sevs, mid. split; [reflexivity | exact (onIndexSetup_done c _ _ Hs)].
  - destruct (split_after_prefix _ _ _ _ _ _ Hsplit (Hquiet sevs _ Hs) Hq) as (mid & ->).
    exists sevs, mid. split; [reflexivity | exact (onIndexSetup_done c _ _ Hs)].
Qed.

Lemma documents_follow_setup_witness :
  exists sevs mid,
    [ EGetOrCreateIndex INDEX_ID (inr None); EQueueFindMany INDEX_ID [] ]
    = sevs ++ EQueueFindMany INDEX_ID [] :: mid /\
    SetupDone INDEX_ID sevs.
Proof.
  exact (documents_follow_setup noIndexClient (context [] [] None INDEX_ID)
           [ EGetOrCreateIndex INDEX_ID (inr None); EQueueFindMany INDEX_ID [] ]
           [EWaitForTasks [] (inr tt)] (EUserFindMany 0 READ_BATCH_SIZE [])
           eq_refl eq_refl).
Defined.

(** ** A run without an index *)

Lemma trace_no_schema (c : Client) (d : Db) (w : option Z) (ids : list Z)
    h offset tagTasks evs out :
  LoopTrace c d w ids h offset tagTasks evs out ->
  forallb (fun e => negb (isSchemaUpdate e)) evs = true.
Proof. induction 1; cbn; auto. Qed.

Lemma trace_first_read (c : Client) (d : Db) (w : option Z) (ids : list Z)
    h offset tagTasks evs out :
  LoopTrace c d w ids h offset tagTasks evs out ->
  out <> OutOfFuel ->
  exists rest,
    evs = EUserFindMany offset READ_BATCH_SIZE
            (userFindMany d offset READ_BATCH_SIZE w ids) :: rest /\
    forall docs,
      userFindMany d offset READ_BATCH_SIZE w ids <> [] ->
      indexReadyRecords (userFindMany d offset READ_BATCH_SIZE w ids) = inr docs ->
      exists r rest', rest = EUpdateDocuments INDEX_ID docs r :: rest'.
Proof.
  intros Ht Hout. destruct Ht; try contradiction; subst.
  - rewrite H. eexists. split; [reflexivity |]. intros docs Hne. contradiction.
  - eexists. split; [reflexivity |]. intros docs _ Hdocs. congruence.
  - eexists. split; [reflexivity |]. intros docs' _ Hdocs.
    rewrite H1 in Hdocs. inversion Hdocs; subst. eauto.
  - eexists. split; [reflexivity |]. intros docs' _ Hdocs.
    rewrite H1 in Hdocs. inversion Hdocs; subst. eauto.
Qed.

Lemma onIndexSetup_no_index (c : Client) (name : string) :
  getOrCreateIndex c [] name = inr None ->
  onIndexSetup (Some c) name [] = (Returned tt, [EGetOrCreateIndex name (inr None)]).
Proof.
  intros H. unfold onIndexSetup, bind, await_getOrCreateIndex, call. cbv zeta.
  change (engineView []) with (@nil Event). now rewrite H.
Qed.

(** X4. When the helper finds no index, nothing is configured, and the
    run goes on all the same: it reads the queue and the first page, and
    when that page is not empty and transforms, it hands its documents to
    [INDEX_ID]. No schema update occurs anywhere in the run. *)
Theorem no_index_still_upserts (c : Client) (ctx : SearchIndexRunContext) :
  getOrCreateIndex c [] (indexName ctx) = inr None ->
  let ids := queueFindMany (db ctx) INDEX_ID in
  let page := userFindMany (db ctx) 0 READ_BATCH_SIZE (lastUpdatedAt ctx) ids in
  exists rest,
    snd (run (Some c) ctx) =
      EGetOrCreateIndex (indexName ctx) (inr None)
      :: EQueueFindMany INDEX_ID ids
      :: EUserFindMany 0 READ_BATCH_SIZE page :: rest /\
    forallb (fun e => negb (isSchemaUpdate e)) (snd (run (Some c) ctx)) = true /\
    forall docs,
      page <> [] -> indexReadyRecords page = inr docs ->
      exists r rest', rest = EUpdateDocuments INDEX_ID docs r :: rest'.
Proof.
  intros Hnone ids page.
  pose proof (onIndexSetup_no_index c (indexName ctx) Hnone) as Hsetup.
  pose proof (proj2 (onIndexUpdate_fuel (Some c) ctx 0)) as Hfuel.
  pose proof (run_anatomy c ctx) as H.
  destruct (run (Some c) ctx) as [out l]. cbn [fst snd] in *.
  destruct H as [sevs e Hs | sevs levs lout out Hs Ht Hf | sevs levs tasks r Hs Ht];
    rewrite Hsetup in Hs; inversion Hs; subst sevs.
  - assert (Hlout : lout <> OutOfFuel).
    { intros ->. cbn in Hf. inversion Hf; subst. contradiction. }
    destruct (trace_first_read _ _ _ _ _ _ _ _ _ Ht Hlout) as (rest & -> & Hdocs).
    exists rest. split; [reflexivity |]. split; [| exact Hdocs].
    exact (trace_no_schema _ _ _ _ _ _ _ _ _ Ht).
  - destruct (trace_first_read _ _ _ _ _ _ _ _ _ Ht ltac:(discriminate))
      as (rest & Hlevs & Hdocs).
    pose proof (trace_no_schema _ _ _ _ _ _ _ _ _ Ht) as Hno.
    rewrite Hlevs in *.
    exists (rest ++ [EWaitForTasks (map taskUid tasks) r]).
    split; [reflexivity |]. split.
    + cbn in *. rewrite forallb_app, Hno. reflexivity.
    + intros docs Hne Hd. destruct (Hdocs docs Hne Hd) as (r' & rest' & ->).
      exists r', (rest' ++ [EWaitForTasks (map taskUid tasks) r]). reflexivity.
Qed.

Lemma no_index_still_upserts_witness :
  exists rest,
    snd (run (Some noIndexClient) (context [liveUser 1 0 []] [] None INDEX_ID)) =
      EGetOrCreateIndex INDEX_ID (inr None)
      :: EQueueFindMany INDEX_ID []
      :: EUserFindMany 0 READ_BATCH_SIZE [selectUser (liveUser 1 0 [])] :: rest.
Proof.
  destruct (no_index_still_upserts noIndexClient
              (context [liveUser 1 0 []] [] None INDEX_ID) eq_refl)
    as (rest & Hlog & _).
  exists rest. exact Hlog.
Defined.

(** ** The size of the batches *)

Lemma indexReadyRecords_length (rs : list UserRecord) (ds : list Doc) :
  indexReadyRecords rs = inr ds -> length ds = length rs.
Proof.
  intros H. apply indexReadyRecords_ids in H.
  rewrite <- (length_map doc_id ds), H. apply length_map.
Qed.

Lemma page_length_bound (d : Db) (w : option Z) (ids : list Z) (offset : nat) :
  length (userFindMany d offset READ_BATCH_SIZE w ids) <= READ_BATCH_SIZE.
Proof.
  unfold userFindMany. rewrite length_map, length_firstn. lia.
Qed.

(** After a page with fewer rows than requested, the next page is empty. *)
Lemma short_page_is_last (d : Db) (w : option Z) (ids : list Z) (offset : nat) :
  length (userFindMany d offset READ_BATCH_SIZE w ids) < READ_BATCH_SIZE ->
  userFindMany d (offset + length (userFindMany d offset READ_BATCH_SIZE w ids))
               READ_BATCH_SIZE w ids = [].
Proof.
  unfold userFindMany. rewrite !length_map, length_firstn, length_skipn.
  intros H. rewrite skipn_all2 by lia. now rewrite firstn_nil.
Qed.

Lemma trace_no_batches (c : Client) (d : Db) (w : option Z) (ids : list Z)
    h offset tagTasks evs out :
  LoopTrace c d w ids h offset tagTasks evs out ->
  userFindMany d offset READ_BATCH_SIZE w ids = [] ->
  batches evs = [].
Proof.
  intros Ht Hpage. destruct Ht; try reflexivity; subst; contradiction.
Qed.

Lemma trace_batch_sizes (c : Client) (d : Db) (w : option Z) (ids : list Z)
    h offset tagTasks evs out :
  LoopTrace c d w ids h offset tagTasks evs out ->
  Forall (fun b => 0 < length b <= READ_BATCH_SIZE) (batches evs) /\
  forall bs b, batches evs = bs ++ [b] ->
               Forall (fun x => length x = READ_BATCH_SIZE) bs.
Proof.
  induction 1.
  - split; [constructor |]. intros bs b Hb. destruct bs; discriminate.
  - split; [constructor |]. intros bs b Hb. destruct bs; discriminate.
  - assert (Hlen : length docs = length users) by now apply indexReadyRecords_length.
    pose proof (page_length_bound d w ids offset) as Hle. rewrite H in Hle.
    change (batches [EUserFindMany offset READ_BATCH_SIZE users;
                     EUpdateDocuments INDEX_ID docs (inl e)]) with [docs].
    split.
    + constructor; [| constructor].
      split; [| lia]. destruct users; [contradiction | cbn in *; lia].
    + intros bs b Hb.
      destruct bs as [| x [| y bs]]; [constructor | discriminate | discriminate].
  - assert (Hlen : length docs = length users) by now apply indexReadyRecords_length.
    pose proof (page_length_bound d w ids offset) as Hle. rewrite H in Hle.
    destruct IHLoopTrace as [IHsize IHfull].
    change (batches (EUserFindMany offset READ_BATCH_SIZE users
                       :: EUpdateDocuments INDEX_ID docs (inr task) :: evs))
      with (docs :: batches evs).
    split.
    + constructor; [| exact IHsize].
      split; [| lia]. destruct users; [contradiction | cbn in *; lia].
    + intros bs b Hb. destruct bs as [| x bs]; [constructor |].
      cbn in Hb. inversion Hb as [[Hx Htail]]. subst x.
      constructor; [| now apply (IHfull bs b)].
      destruct (Nat.eq_dec (length users) READ_BATCH_SIZE) as [Hfull | Hshort];
        [lia |].
      exfalso.
      assert (Hnext : userFindMany d (offset + length users) READ_BATCH_SIZE w ids = []).
      { rewrite <- H. apply short_page_is_last. rewrite H. lia. }
      match goal with
      | Ht : LoopTrace _ _ _ _ _ _ _ evs _ |- _ =>
          rewrite (trace_no_batches _ _ _ _ _ _ _ _ _ Ht Hnext) in Htail
      end.
      destruct bs; discriminate.
  - split; [constructor |]. intros bs b Hb. destruct bs; discriminate.
Qed.

(** The pages and the batches of a run are those of its loop. *)
Lemma run_loop (c : Client) (ctx : SearchIndexRunContext) :
  (userPages (snd (run (Some c) ctx)) = [] /\
   batches (snd (run (Some c) ctx)) = [] /\
   exists e, fst (run (Some c) ctx) = Thrown e) \/
  exists h levs lout,
    LoopTrace c (db ctx) (lastUpdatedAt ctx) (queueFindMany (db ctx) INDEX_ID)
              h 0 [] levs lout /\
    userPages (snd (run (Some c) ctx)) = userPages levs /\
    batches (snd (run (Some c) ctx)) = batches levs /\
    (fst (run (Some c) ctx) = Returned tt -> exists tasks, lout = Returned tasks).
Proof.
  run_cases c ctx;
    destruct (setup_silent sevs Hs) as (Hp & Hu & _).
  - left. unfold batches. rewrite Hp, Hu. eauto.
  - right. eexists _, levs, lout. split; [exact Ht |].
    rewrite userPages_app, batches_app, Hp. unfold batches at 1. rewrite Hu.
    repeat split. intros ->. destruct lout; cbn in Hf; inversion Hf.
  - right. eexists _, levs, (Returned tasks). split; [exact Ht |].
    rewrite userPages_app, batches_app, Hp. unfold batches at 1. rewrite Hu.
    cbn [app map].
    change (userPages (?q :: levs ++ ?j)) with (userPages (levs ++ j)).
    change (batches (?q :: levs ++ ?j)) with (batches (levs ++ j)).
    rewrite userPages_app, batches_app. cbn. rewrite !app_nil_r.
    repeat split. eauto.
Qed.

(** X5. A batch handed to the engine is never empty and never holds more
    than [READ_BATCH_SIZE] documents, and every batch of a run except the
    last holds exactly [READ_BATCH_SIZE]. *)
Theorem batches_are_full_pages (c : Client) (ctx : SearchIndexRunContext) :
  let bs := batches (snd (run (Some c) ctx)) in
  Forall (fun b => 0 < length b <= READ_BATCH_SIZE) bs /\
  forall front b, bs = front ++ [b] ->
                  Forall (fun x => length x = READ_BATCH_SIZE) front.
Proof.
  intros bs. subst bs.
  destruct (run_loop c ctx) as [(_ & Hb & _) | (h & levs & lout & Ht & _ & Hb & _)];
    rewrite Hb.
  - split; [constructor |]. intros front b H. destruct front; discriminate.
  - exact (trace_batch_sizes _ _ _ _ _ _ _ _ _ Ht).
Qed.

(** ** The page requests *)

Lemma pagedFrom_skip (offset : nat) (a b : Log) :
  userPages a = [] -> pagedFrom offset (a ++ b) = pagedFrom offset b.
Proof.
  induction a as [| e a IH]; intros H; [reflexivity |].
  destruct e; cbn in *; try discriminate; auto.
Qed.

Lemma pagedFrom_snoc (offset : nat) (l : Log) (e : Event) :
  isLoopEvent e = false ->
  pagedFrom offset l = true -> pagedFrom offset (l ++ [e]) = true.
Proof.
  intros He. revert offset. induction l as [| x l IH]; intros offset H.
  - destruct e; try discriminate; reflexivity.
  - destruct x; cbn in *; auto.
    apply andb_prop in H. destruct H as [H1 H2]. rewrite H1. cbn. auto.
Qed.

Lemma pagedFrom_at (offset : nat) (pre post : Log) (skip take : nat)
    (rows : list UserRecord) :
  pagedFrom offset (pre ++ EUserFindMany skip take rows :: post) = true ->
  take = READ_BATCH_SIZE /\ skip = offset + length (readSet pre).
Proof.
  revert offset. induction pre as [| e pre IH]; intros offset H.
  - cbn in H. apply andb_prop in H. destruct H as [H _].
    apply andb_prop in H. destruct H as [Hs Ht].
    apply Nat.eqb_eq in Hs, Ht. cbn. lia.
  - destruct e; cbn in H; try exact (IH offset H).
    apply andb_prop in H. destruct H as [_ H].
    destruct (IH _ H) as [Ht Hs]. split; [exact Ht |].
    change (readSet (EUserFindMany skip0 take0 rows0 :: pre))
      with (rows0 ++ readSet pre).
    rewrite length_app. lia.
Qed.

Lemma setup_reads_no_page (P : nat -> nat -> list UserRecord -> Prop) (sevs : Log) :
  forallb isSetupEvent sevs = true ->
  Forall (fun e => match e with
                   | EUserFindMany skip take rows => P skip take rows
                   | _ => True
                   end) sevs.
Proof.
  induction sevs as [| e sevs IH]; intros Hs; constructor.
  - cbn in Hs. apply andb_prop in Hs. destruct e; try exact I.
    destruct Hs; discriminate.
  - apply IH. cbn in Hs. apply andb_prop in Hs. tauto.
Qed.

Lemma trace_paged (c : Client) (d : Db) (w : option Z) (ids : list Z)
    h offset tagTasks evs out :
  LoopTrace c d w ids h offset tagTasks evs out ->
  pagedFrom offset evs = true /\
  Forall (fun e => match e with
                   | EUserFindMany skip take rows => rows = userFindMany d skip take w ids
                   | _ => True
                   end) evs.
Proof.
  induction 1; cbn [pagedFrom]; rewrite ?Nat.eqb_refl; cbn [andb length];
    rewrite ?Nat.add_0_r.
  - split; [reflexivity |]. repeat constructor. now symmetry.
  - split; [reflexivity |]. repeat constructor. now symmetry.
  - split; [reflexivity |]. repeat constructor. now symmetry.
  - destruct IHLoopTrace as [IHp IHa]. split; [exact IHp |].
    constructor; [now symmetry |]. constructor; [exact I | exact IHa].
  - split; [reflexivity | constructor].
Qed.

(** X6. Every page is asked for with [take = READ_BATCH_SIZE] and with
    [skip] equal to the number of rows the earlier pages of the run
    returned (0 for the first), and under the run's own filter. *)
Theorem pages_are_requested_in_sequence (c : Client) (ctx : SearchIndexRunContext)
    (pre post : Log) (skip take : nat) (rows : list UserRecord) :
  snd (run (Some c) ctx) = pre ++ EUserFindMany skip take rows :: post ->
  take = READ_BATCH_SIZE /\
  skip = length (readSet pre) /\
  rows = userFindMany (db ctx) skip take (lastUpdatedAt ctx)
                      (queueFindMany (db ctx) INDEX_ID).
Proof.
  intros Hsplit.
  assert (Hrun : pagedFrom 0 (snd (run (Some c) ctx)) = true /\
                 Forall (fun e => match e with
                          | EUserFindMany skip take rows =>
                              rows = userFindMany (db ctx) skip take (lastUpdatedAt ctx)
                                       (queueFindMany (db ctx) INDEX_ID)
                          | _ => True
                          end) (snd (run (Some c) ctx))).
  { clear Hsplit. run_cases c ctx;
      destruct (setup_silent sevs Hs) as (Hp & _).
    - split.
      + rewrite <- (app_nil_r sevs). now rewrite pagedFrom_skip.
      + now apply setup_reads_no_page.
    - destruct (trace_paged _ _ _ _ _ _ _ _ _ Ht) as [Hpg Hans]. split.
      + rewrite pagedFrom_skip by exact Hp. exact Hpg.
      + apply Forall_app. split; [| constructor; [exact I | exact Hans]].
        now apply setup_reads_no_page.
    - destruct (trace_paged _ _ _ _ _ _ _ _ _ Ht) as [Hpg Hans]. split.
      + rewrite pagedFrom_skip by exact Hp.
        change (pagedFrom 0 (levs ++ [EWaitForTasks (map taskUid tasks) r]) = true).
        apply pagedFrom_snoc; [reflexivity | exact Hpg].
      + apply Forall_app. split.
        * now apply setup_reads_no_page.
        * constructor; [exact I |]. apply Forall_app.
          split; [exact Hans | repeat constructor]. }
  destruct Hrun as [Hpg Hans]. rewrite Hsplit in Hpg, Hans.
  destruct (pagedFrom_at 0 pre post skip take rows Hpg) as [Ht Hs].
  split; [exact Ht |]. split; [exact Hs |].
  apply Forall_app in Hans. destruct Hans as [_ Hans].
  inversion Hans as [| ? ? Hrows _]. exact Hrows.
Qed.

Lemma pages_are_requested_in_sequence_witness :
  1 = length (readSet
        [ EGetOrCreateIndex INDEX_ID (inr None); EQueueFindMany INDEX_ID [];
          EUserFindMany 0 READ_BATCH_SIZE [selectUser (liveUser 1 0 [])];
          EUpdateDocuments INDEX_ID
            [{| doc_id := 1; doc_username := "u"; doc_rank := None; doc_metrics := [] |}]
            (inr {| taskUid := 1 |}) ]).
Proof.
  exact (proj1 (proj2
    (pages_are_requested_in_sequence noIndexClient
       (context [liveUser 1 0 []] [] None INDEX_ID)
       [ EGetOrCreateIndex INDEX_ID (inr None); EQueueFindMany INDEX_ID [];
         EUserFindMany 0 READ_BATCH_SIZE [selectUser (liveUser 1 0 [])];
         EUpdateDocuments INDEX_ID
           [{| doc_id := 1; doc_username := "u"; doc_rank := None; doc_metrics := [] |}]
           (inr {| taskUid := 1 |}) ]
       [EWaitForTasks [1%Z] (inr tt)] 1 READ_BATCH_SIZE [] eq_refl))).
Defined.

(** ** Pages and batches *)

Lemma trace_mirror (c : Client) (d : Db) (w : option Z) (ids : list Z)
    h offset tagTasks evs out :
  LoopTrace c d w ids h offset tagTasks evs out ->
  forall tasks, out = Returned tasks ->
  exists ps,
    userPages evs = ps ++ [[]] /\
    Forall2 (fun page batch => indexReadyRecords page = inr batch) ps (batches evs).
Proof.
  induction 1; intros tasks Hout; try discriminate.
  - exists []. split; [reflexivity | constructor].
  - destruct (IHLoopTrace _ Hout) as (ps & Hps & Hall).
    exists (users :: ps).
    change (users :: userPages evs = (users :: ps) ++ [[]] /\
            Forall2 (fun page batch => indexReadyRecords page = inr batch)
                    (users :: ps) (docs :: batches evs)).
    rewrite Hps. split; [reflexivity |]. now constructor.
Qed.

(** X7. In a run that returns, the batches mirror the pages: the last
    page is empty, and the i-th batch is the transform of the i-th page,
    record by record. Together the batches hold one document per matching
    row, in the store's order. *)
Theorem batches_mirror_pages (c : Client) (ctx : SearchIndexRunContext) :
  fst (run (Some c) ctx) = Returned tt ->
  let l := snd (run (Some c) ctx) in
  exists ps,
    userPages l = ps ++ [[]] /\
    Forall2 (fun page batch => indexReadyRecords page = inr batch) ps (batches l) /\
    map doc_id (concat (batches l)) =
    map id (matching (db ctx) (lastUpdatedAt ctx) (queueFindMany (db ctx) INDEX_ID)).
Proof.
  intros Hout l. subst l.
  destruct (run_docs c ctx) as (rows & rest & Hsplit & Hdocs & Hrest).
  rewrite (Hrest Hout), app_nil_r in Hsplit. subst rows.
  destruct (run_loop c ctx)
    as [(_ & _ & e & He) | (h & levs & lout & Ht & Hp & Hb & Hret)].
  - rewrite He in Hout. discriminate.
  - destruct (Hret Hout) as (tasks & ->).
    destruct (trace_mirror _ _ _ _ _ _ _ _ _ Ht tasks eq_refl) as (ps & Hps & Hall).
    exists ps. rewrite Hp, Hb. split; [exact Hps |]. split; [exact Hall |].
    rewrite <- Hb, (indexReadyRecords_ids _ _ Hdocs), map_map. reflexivity.
Qed.

Lemma batches_mirror_pages_witness :
  let l := snd (run (Some acceptingClient)
                    (context [liveUser 1 0 []; deletedUser 2 0; liveUser 3 0 []]
                             [] None INDEX_ID)) in
  map doc_id (concat (batches l)) = [1%Z; 3%Z].
Proof.
  intros l.
  destruct (batches_mirror_pages acceptingClient
              (context [liveUser 1 0 []; deletedUser 2 0; liveUser 3 0 []]
                       [] None INDEX_ID) eq_refl)
    as (ps & _ & _ & Hids).
  exact Hids.
Defined.

(** ** What the selection depends on *)

(** Two runs over the same rows that select the same rows end alike, and
    their logs differ at most in the answer of the queue read. *)
Lemma run_selection_ext (c : Client) (ctx ctx' : SearchIndexRunContext) :
  user (db ctx') = user (db ctx) ->
  lastUpdatedAt ctx' = lastUpdatedAt ctx ->
  indexName ctx' = indexName ctx ->
  matching (db ctx) (lastUpdatedAt ctx) (queueFindMany (db ctx) INDEX_ID) =
  matching (db ctx) (lastUpdatedAt ctx) (queueFindMany (db ctx') INDEX_ID) ->
  fst (run (Some c) ctx) = fst (run (Some c) ctx') /\
  (snd (run (Some c) ctx) = snd (run (Some c) ctx') \/
   exists pre post,
     snd (run (Some c) ctx)
       = pre ++ EQueueFindMany INDEX_ID (queueFindMany (db ctx) INDEX_ID) :: post /\
     snd (run (Some c) ctx')
       = pre ++ EQueueFindMany INDEX_ID (queueFindMany (db ctx') INDEX_ID) :: post).
Proof.
  intros Husers Hw Hname Hsel. unfold run, enoughFuel.
  rewrite !onIndexUpdate_unfold, Husers, Hw, Hname.
  destruct (onIndexSetup (Some c) (indexName ctx) []) as [[[] | e |] sl];
    [| split; [reflexivity | now left] ..].
  cbv zeta.
  set (ids := queueFindMany (db ctx) INDEX_ID) in *.
  set (ids' := queueFindMany (db ctx') INDEX_ID) in *.
  set (fuel := S (length (user (db ctx)))).
  assert (Hdb : forall offset tagTasks l,
             readLoop fuel c (db ctx') (lastUpdatedAt ctx) ids' offset tagTasks l =
             readLoop fuel c (db ctx) (lastUpdatedAt ctx) ids' offset tagTasks l).
  { clear - Husers. induction fuel as [| n IH]; intros; [reflexivity |].
    rewrite !readLoop_step. cbv zeta. unfold userFindMany, matching.
    rewrite Husers.
    destruct (map selectUser _); [reflexivity |].
    destruct (indexReadyRecords _); [reflexivity |].
    destruct (updateDocuments c _ INDEX_ID _); [reflexivity | apply IH]. }
  rewrite Hdb.
  destruct (readLoop_ext c (db ctx) (lastUpdatedAt ctx) ids ids' Hsel fuel 0 []
              (sl ++ [EQueueFindMany INDEX_ID ids]) (sl ++ [EQueueFindMany INDEX_ID ids']))
    as (out & evs & H1 & H2).
  { now rewrite !engineView_app. }
  rewrite H1, H2.
  assert (Hv : engineView ((sl ++ [EQueueFindMany INDEX_ID ids]) ++ evs) =
               engineView ((sl ++ [EQueueFindMany INDEX_ID ids']) ++ evs)).
  { now rewrite !engineView_app. }
  destruct out as [tasks | e |]; cbn [fst snd]; rewrite ?Hv;
    (split; [reflexivity |]); right.
  - eexists sl, (evs ++ [_]). rewrite <- !app_assoc. split; reflexivity.
  - exists sl, evs. rewrite <- !app_assoc. split; reflexivity.
  - exists sl, evs. rewrite <- !app_assoc. split; reflexivity.
Qed.

(** X8. At a bootstrap run ([lastUpdatedAt] absent) the content of the
    queue has no effect: whatever entries it holds, the run has the same
    outcome, read set, batches and engine operations. *)
Theorem bootstrap_ignores_the_queue (client : option Client)
    (ctx : SearchIndexRunContext) (q' : list QueueItem) :
  lastUpdatedAt ctx = None ->
  let ctx' := {| db := {| user := user (db ctx); searchIndexUpdateQueue := q' |};
                 lastUpdatedAt := lastUpdatedAt ctx;
                 indexName := indexName ctx |} in
  fst (run client ctx) = fst (run client ctx') /\
  readSet (snd (run client ctx)) = readSet (snd (run client ctx')) /\
  upserts (snd (run client ctx)) = upserts (snd (run client ctx')) /\
  engineView (snd (run client ctx)) = engineView (snd (run client ctx')).
Proof.
  intros Hw ctx'. destruct client as [c |]; [| repeat split].
  destruct (run_selection_ext c ctx ctx' eq_refl eq_refl eq_refl) as [Hout Hlog].
  { rewrite Hw. reflexivity. }
  split; [exact Hout |].
  destruct Hlog as [-> | (pre & post & -> & ->)]; [repeat split |].
  rewrite !readSet_app, !upserts_app, !engineView_app. repeat split.
Qed.

Lemma bootstrap_ignores_the_queue_witness :
  let us := [liveUser 1 0 []; liveUser 2 0 []] in
  upserts (snd (run (Some acceptingClient) (context us [] None SWAP_INDEX_ID))) =
  upserts (snd (run (Some acceptingClient)
                    (context us [{| q_type := INDEX_ID; q_id := 7 |}] None SWAP_INDEX_ID))).
Proof.
  intros us.
  exact (proj1 (proj2 (proj2
    (bootstrap_ignores_the_queue (Some acceptingClient)
       (context us [] None SWAP_INDEX_ID)
       [{| q_type := INDEX_ID; q_id := 7 |}] eq_refl)))).
Defined.

Lemma matching_notLater (d : Db) (w1 w2 : option Z) (ids : list Z) :
  notLater w1 w2 -> incl (matching d w2 ids) (matching d w1 ids).
Proof.
  intros Hle u Hin. unfold matching in *. apply filter_In in Hin.
  destruct Hin as [Hu Hsel]. apply filter_In. split; [exact Hu |].
  apply userWhere_spec in Hsel. apply userWhere_spec.
  destruct Hsel as [Hlive Hsel]. split; [exact Hlive |].
  destruct w1 as [a |]; [| now left]. destruct w2 as [b |]; [| contradiction].
  cbn in Hle. destruct Hsel as [Hnone | [(t & Ht & Hlt) | Hq]].
  - discriminate.
  - inversion Ht; subst. right. left. exists a. split; [reflexivity | lia].
  - now right; right.
Qed.

(** X9. Moving the watermark later never adds a row: of two returning
    runs over the same store, the one with the later watermark reads a
    subset of what the other reads. In particular every record that an
    incremental run reads is read by a bootstrap run. *)
Theorem later_watermark_reads_less (c1 c2 : Client) (d : Db)
    (w1 w2 : option Z) (n1 n2 : string) :
  notLater w1 w2 ->
  let ctx1 := {| db := d; lastUpdatedAt := w1; indexName := n1 |} in
  let ctx2 := {| db := d; lastUpdatedAt := w2; indexName := n2 |} in
  fst (run (Some c1) ctx1) = Returned tt ->
  fst (run (Some c2) ctx2) = Returned tt ->
  incl (readSet (snd (run (Some c2) ctx2))) (readSet (snd (run (Some c1) ctx1))).
Proof.
  intros Hle ctx1 ctx2 H1 H2.
  rewrite (readSet_run c1 ctx1 H1), (readSet_run c2 ctx2 H2).
  apply incl_map. now apply matching_notLater.
Qed.

Lemma later_watermark_reads_less_witness :
  let d := {| user := [liveUser 1 5 []; liveUser 2 20 []];
              searchIndexUpdateQueue := [] |} in
  incl (readSet (snd (run (Some acceptingClient)
                   {| db := d; lastUpdatedAt := Some 10%Z; indexName := INDEX_ID |})))
       (readSet (snd (run (Some acceptingClient)
                   {| db := d; lastUpdatedAt := None; indexName := SWAP_INDEX_ID |}))).
Proof.
  intros d.
  exact (later_watermark_reads_less acceptingClient acceptingClient d
           None (Some 10%Z) SWAP_INDEX_ID INDEX_ID I eq_refl eq_refl).
Defined.

(** ** How many reads and batches *)

Lemma trace_reads_per_batch (c : Client) (d : Db) (w : option Z) (ids : list Z)
    h offset tagTasks evs out :
  LoopTrace c d w ids h offset tagTasks evs out ->
  length (userPages evs) <= length (batches evs) + 1.
Proof.
  induction 1; cbn; try lia.
  change (S (length (userPages evs)) <= S (length (batches evs)) + 1). lia.
Qed.

Lemma nonempty_lists_count {A} (ls : list (list A)) :
  Forall (fun x => 0 < length x) ls -> length ls <= length (concat ls).
Proof.
  induction 1 as [| x ls Hx _ IH]; cbn; [lia |]. rewrite length_app. lia.
Qed.

(** X11. A run hands over at most one batch per matching row and reads
    at most one page more than that: the work of the loop is bounded by
    the number of rows the query matches. *)
Theorem reads_are_bounded (c : Client) (ctx : SearchIndexRunContext) :
  let n := length (matching (db ctx) (lastUpdatedAt ctx)
                            (queueFindMany (db ctx) INDEX_ID)) in
  n <= length (user (db ctx)) /\
  length (batches (snd (run (Some c) ctx))) <= n /\
  length (userPages (snd (run (Some c) ctx))) <= n + 1.
Proof.
  intros n. subst n.
  split; [apply filter_length_le |].
  assert (Hb : length (batches (snd (run (Some c) ctx)))
               <= length (matching (db ctx) (lastUpdatedAt ctx)
                                   (queueFindMany (db ctx) INDEX_ID))).
  { destruct (run_docs c ctx) as (rows & rest & Hsplit & Hdocs & _).
    apply indexReadyRecords_length in Hdocs. rewrite length_map in Hdocs.
    rewrite Hsplit, length_app, <- Hdocs.
    etransitivity; [apply nonempty_lists_count | lia].
    destruct (run_loop c ctx) as [(_ & Hnil & _) | (h & levs & lout & Ht & _ & Hlevs & _)].
    - rewrite Hnil. constructor.
    - rewrite Hlevs.
      eapply Forall_impl; [| exact (proj1 (trace_batch_sizes _ _ _ _ _ _ _ _ _ Ht))].
      cbv beta. intros b Hlen. lia. }
  split; [exact Hb |].
  destruct (run_loop c ctx) as [(Hnil & _ & _) | (h & levs & lout & Ht & Hp & Hlevs & _)].
  - rewrite Hnil. cbn. lia.
  - pose proof (trace_reads_per_batch _ _ _ _ _ _ _ _ _ Ht) as Hr.
    rewrite Hp. rewrite Hlevs in Hb. lia.
Qed.

(** ** Queue entries that name no live row *)


(** ** The metrics of the documents handed to the engine *)

Lemma indexReadyRecords_from (rs : list UserRecord) :
  forall ds d, indexReadyRecords rs = inr ds -> In d ds ->
  exists r, In r rs /\ indexReadyRecord r = inr d.
Proof.
  induction rs as [| r0 rs IH]; intros ds d H Hin; cbn in H.
  - inversion H; subst. contradiction.
  - destruct (indexReadyRecord r0) as [e | d0] eqn:H0; [discriminate |].
    destruct (indexReadyRecords rs) as [e | xs]; [discriminate |].
    inversion H; subst. destruct Hin as [<- | Hin].
    + exists r0. split; [now left | exact H0].
    + destruct (IH xs d eq_refl Hin) as (r & Hr & Hd).
      exists r. split; [now right | exact Hd].
Qed.

(** The document of a row whose metrics relation is the array [ms]. *)
Lemma document_of_row (u : User) (ms : list UserMetric) :
  metrics u = Some ms ->
  indexReadyRecord (selectUser u) =
  inr {| doc_id := id u;
         doc_username := username u;
         doc_rank := option_map selectRank (rank u);
         doc_metrics :=
           match find (fun m => isAllTime (timeframe m)) ms with
           | Some m =>
               [ ("followerCount", followerCount m);
                 ("uploadCount", uploadCount m);
                 ("followingCount", followingCount m);
                 ("reviewCount", reviewCount m);
                 ("answerAcceptCount", answerAcceptCount m);
                 ("hiddenCount", hiddenCount m) ]%string
           | None => []
           end |}.
Proof.
  intros Hms. unfold indexReadyRecord, selectUser. cbn. rewrite Hms. cbn.
  rewrite first_selected_metric.
  now destruct (find (fun m => isAllTime (timeframe m)) ms).
Qed.

(** C7. In a run that returns, the documents handed to [updateDocuments]
    are those of the matching rows, and the [metrics] of the document of a
    row whose metrics relation is [ms] is one object with the six fields
    [followerCount], [uploadCount], [followingCount], [reviewCount],
    [answerAcceptCount] and [hiddenCount] of the all-time record of [ms]:
    of that very record when [ms] holds exactly one all-time record, and
    the empty object when it holds none. *)
Theorem metrics_flattened (c : Client) (ctx : SearchIndexRunContext) :
  fst (run (Some c) ctx) = Returned tt ->
  let l := snd (run (Some c) ctx) in
  let rows := matching (db ctx) (lastUpdatedAt ctx) (queueFindMany (db ctx) INDEX_ID) in
  let flat := fun ms : list UserMetric =>
    match find (fun m => isAllTime (timeframe m)) ms with
    | Some m =>
        [ ("followerCount", followerCount m);
          ("uploadCount", uploadCount m);
          ("followingCount", followingCount m);
          ("reviewCount", reviewCount m);
          ("answerAcceptCount", answerAcceptCount m);
          ("hiddenCount", hiddenCount m) ]%string
    | None => []
    end in
  (forall u ms, In u rows -> metrics u = Some ms ->
     exists batch doc,
       In batch (batches l) /\ In doc batch /\
       doc_id doc = id u /\ doc_metrics doc = flat ms) /\
  (forall batch doc, In batch (batches l) -> In doc batch ->
     exists u ms,
       In u rows /\ metrics u = Some ms /\
       doc_id doc = id u /\ doc_metrics doc = flat ms) /\
  (forall ms m, In m ms -> timeframe m = AllTime ->
     (forall m', In m' ms -> timeframe m' = AllTime -> m' = m) ->
     flat ms = [ ("followerCount", followerCount m);
                 ("uploadCount", uploadCount m);
                 ("followingCount", followingCount m);
                 ("reviewCount", reviewCount m);
                 ("answerAcceptCount", answerAcceptCount m);
                 ("hiddenCount", hiddenCount m) ]%string) /\
  (forall ms, (forall m, In m ms -> timeframe m <> AllTime) -> flat ms = []).
Proof.
  intros Hout l rows flat.
  destruct (run_docs c ctx) as (rows0 & rest & Hsplit & Hdocs & Hrest).
  rewrite (Hrest Hout), app_nil_r in Hsplit. fold rows in Hsplit. subst rows0.
  fold l in Hdocs.
  split; [| split; [| split]].
  - intros u ms Hu Hms.
    destruct (indexReadyRecords_In _ _ (selectUser u) Hdocs (in_map selectUser _ _ Hu))
      as (doc & Hdoc & Hin).
    apply in_concat in Hin. destruct Hin as (batch & Hbatch & Hin).
    exists batch, doc. rewrite (document_of_row u ms Hms) in Hdoc.
    inversion Hdoc; subst doc. repeat split; assumption.
  - intros batch doc Hbatch Hin.
    assert (Hall : In doc (concat (batches l))).
    { apply in_concat. exists batch. split; assumption. }
    destruct (indexReadyRecords_from _ _ doc Hdocs Hall) as (r & Hr & Hdoc).
    apply in_map_iff in Hr. destruct Hr as (u & <- & Hu).
    destruct (metrics u) as [ms |] eqn:Hms.
    + exists u, ms. rewrite (document_of_row u ms Hms) in Hdoc.
      inversion Hdoc; subst doc. repeat split; assumption.
    + exfalso. unfold indexReadyRecord, selectUser in Hdoc. cbn in Hdoc.
      rewrite Hms in Hdoc. discriminate.
  - intros ms m Hin Ht Huniq. unfold flat.
    destruct (find (fun m0 => isAllTime (timeframe m0)) ms) as [m0 |] eqn:Hf.
    + apply find_some in Hf. destruct Hf as [Hin0 Ht0].
      rewrite (Huniq m0 Hin0); [reflexivity |].
      destruct (timeframe m0); try discriminate; reflexivity.
    + exfalso. pose proof (find_none _ _ Hf m Hin) as Hn. cbv beta in Hn.
      rewrite Ht in Hn. discriminate.
  - intros ms Hnone. unfold flat.
    destruct (find (fun m0 => isAllTime (timeframe m0)) ms) as [m0 |] eqn:Hf;
      [| reflexivity].
    apply find_some in Hf. destruct Hf as [Hin0 Ht0].
    exfalso. apply (Hnone m0 Hin0).
    destruct (timeframe m0); try discriminate; reflexivity.
Qed.

Lemma metrics_flattened_witness :
  exists batch doc,
    In batch (batches (snd (run (Some acceptingClient)
                (context [liveUser 1 0 [dayMetric 3; allTimeMetric 5]] [] None INDEX_ID)))) /\
    In doc batch /\
    doc_id doc = 1%Z /\
    doc_metrics doc =
      [ ("followerCount", 5%Z); ("uploadCount", 0%Z); ("followingCount", 0%Z);
        ("reviewCount", 0%Z); ("answerAcceptCount", 0%Z); ("hiddenCount", 0%Z) ]%string.
Proof.
  exact (proj1 (metrics_flattened acceptingClient
                  (context [liveUser 1 0 [dayMetric 3; allTimeMetric 5]] [] None INDEX_ID)
                  eq_refl)
               (liveUser 1 0 [dayMetric 3; allTimeMetric 5])
               [dayMetric 3; allTimeMetric 5] (or_introl eq_refl) eq_refl).
Defined.

(** ** The transform of the rows the query returns *)






(** ** The transformer, record by record *)

(** X10. On records whose [metrics] is an array, which is all the query
    returns, [users.map] does not throw: it yields one document per
    record, in order, and each document keeps the id, the username and
    the rank of its record and takes as metrics the first object of the
    array, or the empty object when the array is empty. *)
Theorem transform_keeps_the_record (rs : list UserRecord) :
  (forall r, In r rs -> rec_metrics r <> None) ->
  exists ds,
    indexReadyRecords rs = inr ds /\
    Forall2 (fun r d =>
               doc_id d = rec_id r /\
               doc_username d = rec_username r /\
               doc_rank d = rec_rank r /\
               exists ms, rec_metrics r = Some ms /\ doc_metrics d = hd [] ms)
            rs ds.
Proof.
  induction rs as [| r rs IH]; intros Htyped.
  - exists []. split; [reflexivity | constructor].
  - destruct IH as (ds & Hds & Hall); [intros x Hx; apply Htyped; now right |].
    destruct (rec_metrics r) as [ms |] eqn:Hm;
      [| exfalso; apply (Htyped r); [now left | exact Hm]].
    eexists. split.
    + cbn. unfold indexReadyRecord. rewrite Hm, Hds. reflexivity.
    + constructor; [| exact Hall].
      cbn. repeat split. exists ms. split; [exact Hm |]. now destruct ms.
Qed.

Lemma transform_keeps_the_record_witness :
  exists ds,
    indexReadyRecords [ selectUser (liveUser 1 0 []);
                        selectUser (liveUser 2 0 [allTimeMetric 5]) ] = inr ds /\
    length ds = 2.
Proof.
  destruct (transform_keeps_the_record
              [ selectUser (liveUser 1 0 []);
                selectUser (liveUser 2 0 [allTimeMetric 5]) ])
    as (ds & Hds & Hall).
  - intros r [<- | [<- | []]]; discriminate.
  - exists ds. split; [exact Hds |].
    apply Forall2_length in Hall. now rewrite <- Hall.
Defined.
